(** * WassersteinGANTrainer: the training loop of the Wasserstein GAN trainer

    A shallow embedding of [src/WassersteinGANTrainer.py].  The trainer owns
    two torch models, keyed by the roles "G" and "D", and a statistics ledger.
    Everything the trainer only calls (the samplers, the networks' forward
    passes, the loss functions, autograd, the optimizers, the scheduling
    policy, the Wasserstein distance helper) is an opaque collaborator that
    reads and writes an abstract [World].

    Conventions of the embedding:
    - a tensor is the list of its rows, a row the list of its scalars;
    - a float is an exact rational ([Q]); NaN, infinities and rounding are
      outside the model;
    - the [training] flag and the parameters of the two models are explicit
      fields of the trainer state, since the loop reads and writes them;
    - a Python exception aborts the current call and keeps every mutation made
      so far: a computation returns a result together with the state. *)

From Stdlib Require Import List ZArith Zpow_facts QArith Qminmax Lia Bool Arith.
From Stdlib Require Ascii String.
Import ListNotations.
Import Ascii.AsciiSyntax String.StringSyntax.
Delimit Scope char_scope with char.
Delimit Scope string_scope with string.
Local Open Scope Q_scope.

(** ** Data model *)

(** The two keys of the role-indexed dictionaries. *)
Inductive Role : Type := G | D.

(** The [training] flag of a torch module: [.train()] and [.eval()]. *)
Inductive Mode : Type := Training | Inference.

Inductive Device : Type := Cpu | Cuda.

Definition Tensor : Type := list (list Q).

(** [model.parameters()]: the parameter tensors, each one flattened. *)
Definition Params : Type := list (list Q).

Definition role_eqb (a b : Role) : bool :=
  match a, b with
  | G, G | D, D => true
  | _, _ => false
  end.

(** Assignment to one key of a role-indexed dictionary. *)
Definition upd {A : Type} (f : Role -> A) (r : Role) (v : A) : Role -> A :=
  fun r' => if role_eqb r' r then v else f r'.

(** [self.stats] *)
Record Stats : Type := mkStats {
  losses : Role -> list Q;
  epochs_trained : Role -> nat;
  d_fpr : list Q;
  d_recall : list Q;
  d_precision : list Q
}.

(** What happened to the models, in program order. *)
Inductive Event : Type :=
| SetMode (r : Role) (m : Mode)
| Forward (r : Role) (m : Mode)
| ZeroGrad (r : Role)
| Backward
| OptStep (r : Role)
| Clamp.

(** What a call returns: a value, or the [IndexError] it raised. *)
Inductive Result (A : Type) : Type :=
| Ok (a : A)
| IndexError.
Arguments Ok {A} a.
Arguments IndexError {A}.

(** The collaborators of the trainer. *)
Record Env : Type := mkEnv {
  World : Type;
  latent_space : nat -> option Device -> World -> Tensor * World;
  dataset : nat -> option Device -> World -> Tensor * World;
  forward : Role -> Params -> Mode -> Tensor -> World -> Tensor * World;
  loss_functions : Role -> Tensor -> Tensor -> World -> Result Q * World;
  totrain_next : Stats -> World -> Role * World;
  zero_grad : Role -> World -> World;
  backward : World -> World;
  opt_step : Role -> Params -> World -> Params * World;
  all_Wasserstein_dists : Tensor -> Tensor -> list Q
}.

Section Trainer.

Context {E : Env}.

(** [self], together with the world it runs in. *)
Record Trainer : Type := mkTrainer {
  world : World E;
  mode : Role -> Mode;
  params : Role -> Params;
  stats : Stats;
  d_thresh : Q;
  device : Device;
  trace : list Event
}.

(** ** Computations over the trainer state *)

Definition M (A : Type) : Type := Trainer -> Result A * Trainer.

Definition ret {A : Type} (a : A) : M A := fun s => (Ok a, s).

Definition bind {A B : Type} (m : M A) (k : A -> M B) : M B :=
  fun s =>
    match m s with
    | (Ok a, s') => k a s'
    | (IndexError, s') => (IndexError, s')
    end.

(** A computation that only returns or raises. *)
Definition lift {A : Type} (r : Result A) : M A := fun s => (r, s).

(** A branch of an [if] without an [else]. *)
Definition skip : M unit := ret tt.

Definition set_world (w : World E) (s : Trainer) : Trainer :=
  mkTrainer w (mode s) (params s) (stats s) (d_thresh s) (device s) (trace s).

Definition set_mode_of (r : Role) (m : Mode) (s : Trainer) : Trainer :=
  mkTrainer (world s) (upd (mode s) r m) (params s) (stats s) (d_thresh s)
            (device s) (trace s).

Definition set_params (r : Role) (p : Params) (s : Trainer) : Trainer :=
  mkTrainer (world s) (mode s) (upd (params s) r p) (stats s) (d_thresh s)
            (device s) (trace s).

Definition set_stats (st : Stats) (s : Trainer) : Trainer :=
  mkTrainer (world s) (mode s) (params s) st (d_thresh s) (device s) (trace s).

Definition log (e : Event) (s : Trainer) : Trainer :=
  mkTrainer (world s) (mode s) (params s) (stats s) (d_thresh s) (device s)
            (trace s ++ [e]).

(** A call of a collaborator that returns a value. *)
Definition call {A : Type} (f : World E -> A * World E) : M A :=
  fun s => let '(a, w) := f (world s) in (Ok a, set_world w s).

(** A call of a collaborator that may raise. *)
Definition call_result {A : Type} (f : World E -> Result A * World E) : M A :=
  fun s => let '(r, w) := f (world s) in (r, set_world w s).

(** A call of a collaborator for its effect only. *)
Definition exec (f : World E -> World E) : M unit :=
  fun s => (Ok tt, set_world (f (world s)) s).

Definition modify (f : Trainer -> Trainer) : M unit :=
  fun s => (Ok tt, f s).

Definition gets {A : Type} (f : Trainer -> A) : M A :=
  fun s => (Ok (f s), s).

End Trainer.

Arguments Trainer E : clear implicits.
Arguments M E A : clear implicits.

Declare Scope trainer_scope.
Delimit Scope trainer_scope with trainer.
Notation "x <- c1 ;; c2" := (bind c1 (fun x => c2))
  (at level 100, c1 at next level, right associativity) : trainer_scope.
Notation "' pat <- c1 ;; c2" := (bind c1 (fun x => match x with pat => c2 end))
  (at level 100, pat pattern, c1 at next level, right associativity) : trainer_scope.
Notation "c1 ;; c2" := (bind c1 (fun _ => c2))
  (at level 100, right associativity) : trainer_scope.

Local Open Scope trainer_scope.

(** ** The trainer's methods *)

Section Methods.

Context {E : Env}.

(** [math.ceil(n_batch / 2)] and [int(n_batch / 2)] on a batch size. *)
Definition ceil_half (n : nat) : nat := Nat.div (n + 1) 2.
Definition floor_half (n : nat) : nat := Nat.div n 2.

(** [model.eval()] and [model.train()] on [self.models[r]]. *)
Definition set_mode (r : Role) (m : Mode) : M E unit :=
  modify (fun s => log (SetMode r m) (set_mode_of r m s)).

(** [self.models[r](x)]: the forward pass, in the mode the model is in. *)
Definition call_model (r : Role) (x : Tensor) : M E Tensor :=
  p <- gets (fun s => params s r) ;;
  m <- gets (fun s => mode s r) ;;
  modify (log (Forward r m)) ;;
  call (forward E r p m x).

(** [discriminator_input], lines 131-138. *)
Definition discriminator_input (n_batch : nat) : M E (Tensor * Tensor) :=
  dev <- gets device ;;
  gen_in <- call (latent_space E (ceil_half n_batch) (Some dev)) ;;
  set_mode G Inference ;;
  gen_out <- call_model G gen_in ;;
  set_mode G Training ;;
  real <- call (dataset E (floor_half n_batch) (Some dev)) ;;
  let dis_in := gen_out ++ real in
  let y := repeat [0] (ceil_half n_batch) ++ repeat [1] (floor_half n_batch) in
  ret (dis_in, y).

(** [generator_input], lines 140-144. *)
Definition generator_input (n_batch : nat) : M E (Tensor * Tensor) :=
  dev <- gets device ;;
  gen_in <- call (latent_space E n_batch (Some dev)) ;;
  gen_out <- call_model G gen_in ;;
  let y := repeat [1] n_batch in
  ret (gen_out, y).

(** [self.in_functions], as [__init__] fills it. *)
Definition in_functions (tt : Role) : nat -> M E (Tensor * Tensor) :=
  match tt with
  | G => generator_input
  | D => discriminator_input
  end.

(** Modelled from the spec: [SuperTrainer.eval], which is not part of the
    sources at hand.  It runs the named role's model in inference mode on the
    given input and returns the raw prediction, and it does not change the
    model's mode persistently: the mode switch is reverted before returning. *)
Definition eval (r : Role) (in_dat : Tensor) : M E Tensor :=
  m0 <- gets (fun s => mode s r) ;;
  set_mode r Inference ;;
  out <- call_model r in_dat ;;
  set_mode r m0 ;;
  ret out.

Definition eval_generator (in_dat : Tensor) : M E Tensor := eval G in_dat.
Definition eval_discriminator (in_dat : Tensor) : M E Tensor := eval D in_dat.

(** [.flatten()] of a tensor of rows. *)
Definition flatten (t : Tensor) : list Q := concat t.

(** [p > thresh] on scalars. *)
Definition Qgtb (p thresh : Q) : bool := negb (Qle_bool p thresh).

(** The four counters of lines 62-65. *)
Record Counts : Type := mkCounts { fP : nat; fN : nat; tP : nat; tN : nat }.

Definition count_one (thresh y p : Q) (c : Counts) : Counts :=
  if Qeq_bool y 0 then
    if Qgtb p thresh then mkCounts (fP c + 1) (fN c) (tP c) (tN c)
    else mkCounts (fP c) (fN c) (tP c) (tN c + 1)
  else
    if Qgtb p thresh then mkCounts (fP c) (fN c) (tP c + 1) (tN c)
    else mkCounts (fP c) (fN c + 1) (tP c) (tN c).

(** The loop of lines 66-76, from index [i] on: [ys] is what is left of
    [y_flat], and [mod_pred_flat[i]] raises when [i] is out of range. *)
Fixpoint confusion_from (thresh : Q) (mod_pred_flat : list Q) (i : nat)
    (ys : list Q) (c : Counts) : Result Counts :=
  match ys with
  | [] => Ok c
  | y :: ys' =>
      match nth_error mod_pred_flat i with
      | None => IndexError
      | Some p => confusion_from thresh mod_pred_flat (S i) ys' (count_one thresh y p c)
      end
  end.

Definition confusion (thresh : Q) (y_flat mod_pred_flat : list Q) : Result Counts :=
  confusion_from thresh mod_pred_flat 0 y_flat (mkCounts 0 0 0 0).

(** [a / b] on two counters, as a float. *)
Definition ratio (a b : nat) : Q := inject_Z (Z.of_nat a) / inject_Z (Z.of_nat b).

(** What lines 78-83 append to each of the three sequences. *)
Definition fpr_entry (c : Counts) : list Q :=
  if Nat.ltb 0 (fP c + tN c) then [ratio (fP c) (fP c + tN c)] else [].
Definition precision_entry (c : Counts) : list Q :=
  if Nat.ltb 0 (tP c + fP c) then [ratio (tP c) (tP c + fP c)] else [].
Definition recall_entry (c : Counts) : list Q :=
  if Nat.ltb 0 (tP c + fN c) then [ratio (tP c) (tP c + fN c)] else [].

Definition log_rates (c : Counts) (st : Stats) : Stats :=
  mkStats (losses st) (epochs_trained st)
          (d_fpr st ++ fpr_entry c)
          (d_recall st ++ recall_entry c)
          (d_precision st ++ precision_entry c).

(** Lines 57-58. *)
Definition log_loss (tt : Role) (item : Q) (st : Stats) : Stats :=
  mkStats (upd (losses st) tt (losses st tt ++ [item]))
          (upd (epochs_trained st) tt (epochs_trained st tt + 1)%nat)
          (d_fpr st) (d_recall st) (d_precision st).

(** [p.data.clamp_(-0.01, 0.01)] on one scalar. *)
Definition clamp_lo : Q := - (1 # 100).
Definition clamp_hi : Q := 1 # 100.
Definition clamp (x : Q) : Q := Qmin (Qmax x clamp_lo) clamp_hi.

(** Lines 91-92. *)
Definition clamp_params (p : Params) : Params := map (map clamp) p.

(** [torch.mean] of the distances. *)
Definition mean (l : list Q) : Q :=
  fold_right Qplus 0 l / inject_Z (Z.of_nat (length l)).

(** One iteration of the loop of [train], lines 42-98; [all_dists] is the
    local list, returned with this iteration's entry appended. *)
Definition train_step (n_batch : nat) (all_dists : list Q) : M E (list Q) :=
  tt <- (st <- gets stats ;; call (totrain_next E st)) ;;
  '(dis_in, y) <- in_functions tt n_batch ;;
  match tt with G => set_mode D Inference | D => skip end ;;
  mod_pred <- call_model D dis_in ;;
  set_mode D Training ;;
  mod_loss <- call_result (loss_functions E tt mod_pred y) ;;
  modify (fun s => set_stats (log_loss tt mod_loss (stats s)) s) ;;
  thresh <- gets d_thresh ;;
  c <- lift (confusion thresh (flatten y) (flatten mod_pred)) ;;
  modify (fun s => set_stats (log_rates c (stats s)) s) ;;
  exec (zero_grad E tt) ;; modify (log (ZeroGrad tt)) ;;
  exec (backward E) ;; modify (log Backward) ;;
  p <- gets (fun s => params s tt) ;;
  p' <- call (opt_step E tt p) ;;
  modify (fun s => log (OptStep tt) (set_params tt p' s)) ;;
  match tt with
  | D => modify (fun s => log Clamp (set_params D (clamp_params (params s D)) s))
  | G => skip
  end ;;
  lat <- call (latent_space E 256 None) ;;
  gen <- eval_generator lat ;;
  real <- call (dataset E 256 None) ;;
  let w_dists := all_Wasserstein_dists E gen real in
  let w_dist_mean := mean w_dists in
  ret (all_dists ++ [w_dist_mean]).

(** The loop of [train]: [n_epochs] iterations, threading [all_dists]. *)
Fixpoint train_loop (n_epochs n_batch : nat) (all_dists : list Q) : M E (list Q) :=
  match n_epochs with
  | O => ret all_dists
  | S n => all_dists' <- train_step n_batch all_dists ;; train_loop n n_batch all_dists'
  end.

(** [train(n_epochs, n_batch)]: returns [all_dists], the list it prints the
    length of and hands to the plot. *)
Definition train (n_epochs n_batch : nat) : M E (list Q) :=
  train_loop n_epochs n_batch [].

(** The state [__init__] leaves: empty ledgers and zero counters. *)
Definition init (w : World E) (md : Role -> Mode) (ps : Role -> Params)
    (thresh : Q) (dev : Device) : Trainer E :=
  mkTrainer w md ps
    (mkStats (fun _ => []) (fun _ => 0%nat) [] [] [])
    thresh dev [].

End Methods.

(** ** What the trainer expects of its collaborators

    The samplers return as many rows as they are asked for (the docstring of
    [__init__]), the generator returns one row per latent point and the
    discriminator at least one score per row of its input. *)
Record Contracts (E : Env) : Prop := mkContracts {
  latent_rows : forall n dev w, length (fst (latent_space E n dev w)) = n;
  dataset_rows : forall n dev w, length (fst (dataset E n dev w)) = n;
  generator_rows : forall p m x w, length (fst (forward E G p m x w)) = length x;
  discriminator_scores :
    forall p m x w, (length x <= length (flatten (fst (forward E D p m x w))))%nat
}.

(** The range the critic's weights are clamped into. *)
Definition in_clamp_range (x : Q) : Prop := clamp_lo <= x /\ x <= clamp_hi.

(** An event that changes the mode of model [r] or runs it. *)
Definition touches (r : Role) (e : Event) : bool :=
  match e with
  | SetMode r' _ | Forward r' _ => role_eqb r' r
  | _ => false
  end.

(** ** A small concrete instance

    Two one-layer stand-ins: the generator returns its input, the critic
    scores a row by the sum of its entries plus one; the optimizers add one to
    every weight; the world is the number of batches drawn so far. *)
Definition row_sum (row : list Q) : Q := fold_right Qplus 0 row.

Definition toy (policy : Stats -> Role) : Env :=
  mkEnv nat
    (fun n _ w => (repeat [inject_Z (Z.of_nat w)] n, S w))
    (fun n _ w => (repeat [1] n, S w))
    (fun r _ _ x w =>
       match r with
       | G => (x, w)
       | D => (map (fun row => [row_sum row + 1]) x, w)
       end)
    (fun _ pred _ w => (Ok (mean (flatten pred)), w))
    (fun st w => (policy st, w))
    (fun _ w => w)
    (fun w => w)
    (fun _ p w => (map (map (fun x => x + 1)) p, w))
    (fun a b => [inject_Z (Z.of_nat (length a)); inject_Z (Z.of_nat (length b)) + 2]).

(** Critic first, then turn and turn about. *)
Definition alternate (st : Stats) : Role :=
  if Nat.even (epochs_trained st G + epochs_trained st D) then D else G.

Definition always (r : Role) (st : Stats) : Role := r.

Definition toy_params (r : Role) : Params :=
  match r with
  | G => [[1 # 4]]
  | D => [[1 # 2; - (1 # 200)]; [- (3 # 1)]]
  end.

Definition toy_init (policy : Stats -> Role) (md : Role -> Mode) : Trainer (toy policy) :=
  init (E := toy policy) 0%nat md toy_params (1 # 2) Cpu.

Definition all_training (r : Role) : Mode := Training.

(** The result of a computation that did not raise. *)
Definition value {A : Type} (d : A) (r : Result A) : A :=
  match r with
  | Ok a => a
  | IndexError => d
  end.

(** ** Vocabulary of the statements *)

(** The four classes of a (label, prediction) pair. *)
Definition is_fP (thresh : Q) (yp : Q * Q) : bool := Qeq_bool (fst yp) 0 && Qgtb (snd yp) thresh.
Definition is_tN (thresh : Q) (yp : Q * Q) : bool := Qeq_bool (fst yp) 0 && negb (Qgtb (snd yp) thresh).
Definition is_tP (thresh : Q) (yp : Q * Q) : bool := negb (Qeq_bool (fst yp) 0) && Qgtb (snd yp) thresh.
Definition is_fN (thresh : Q) (yp : Q * Q) : bool := negb (Qeq_bool (fst yp) 0) && negb (Qgtb (snd yp) thresh).

Definition count {A : Type} (f : A -> bool) (l : list A) : nat := length (filter f l).

Definition other (r : Role) : Role :=
  match r with
  | G => D
  | D => G
  end.

(** Number of losses recorded so far, both roles together. *)
Definition total_losses (st : Stats) : nat :=
  (length (losses st G) + length (losses st D))%nat.

Definition total_epochs (st : Stats) : nat :=
  (epochs_trained st G + epochs_trained st D)%nat.

(** The entry of a ledger, read off its denominator. *)
Definition guarded (num den : nat) : list Q :=
  if Nat.eqb den 0 then [] else [ratio num den].

(** The events of an iteration that completes, in program order. *)
Definition step_events (tt : Role) (mG mD : Mode) : list Event :=
  match tt with
  | G => [Forward G mG; SetMode D Inference; Forward D Inference; SetMode D Training;
          ZeroGrad G; Backward; OptStep G;
          SetMode G Inference; Forward G Inference; SetMode G mG]
  | D => [SetMode G Inference; Forward G Inference; SetMode G Training;
          Forward D mD; SetMode D Training;
          ZeroGrad D; Backward; OptStep D; Clamp;
          SetMode G Inference; Forward G Inference; SetMode G Training]
  end.

(** ** The data helpers of the test scripts

    [src/Testing/WassersteinGANTesting.py] and
    [src/Testing/ConditionalGANTesting.py] build the real dataset from the
    binary digits of even numbers.  [None] stands for a raised [ValueError]. *)

(** The digits that [bin] prints for a positive number, most significant first. *)
Fixpoint bin_digits (p : positive) : list Ascii.ascii :=
  match p with
  | xH => ["1"%char]
  | xO q => bin_digits q ++ ["0"%char]
  | xI q => bin_digits q ++ ["1"%char]
  end.

(** The built-in [bin]. *)
Definition bin (num : Z) : String.string :=
  match num with
  | Z0 => "0b0"%string
  | Zpos p => String.append "0b" (String.string_of_list_ascii (bin_digits p))
  | Zneg p => String.append "-0b" (String.string_of_list_ascii (bin_digits p))
  end.

(** [int(x)] on a string of one character: a decimal digit or a [ValueError]. *)
Definition int_of_char (c : Ascii.ascii) : option Z :=
  let n := Ascii.nat_of_ascii c in
  if (48 <=? n)%nat && (n <=? 57)%nat then Some (Z.of_nat (n - 48)) else None.

(** A list comprehension [[f(x) for x in xs]] whose body may raise. *)
Fixpoint comprehension {A B : Type} (f : A -> option B) (xs : list A) : option (list B) :=
  match xs with
  | [] => Some []
  | x :: xs' =>
      match f x with
      | None => None
      | Some y =>
          match comprehension f xs' with
          | None => None
          | Some ys => Some (y :: ys)
          end
      end
  end.

(** [list_from_num], lines 14-15. *)
Definition list_from_num (num : Z) : option (list Z) :=
  comprehension int_of_char (skipn 2 (String.list_ascii_of_string (bin num))).

Definition max_int : Z := 128.

(** [int(math.log(max_int, 2))], which is 7. *)
Definition max_length : nat := 7.

(** Line 31: [([0] * (max_length - len(x))) + x]; a negative count repeats
    nothing. *)
Definition pad (x : list Z) : list Z := repeat 0%Z (max_length - length x) ++ x.

(** [torch.tensor(data).float()] on a list of rows: the rows must have one
    length. *)
Definition tensor_of_rows (data : list (list Z)) : option Tensor :=
  match data with
  | [] => Some []
  | row :: rows =>
      if forallb (fun r => Nat.eqb (length r) (length row)) rows
      then Some (map (map inject_Z) data)
      else None
  end.

(** [batch_from_data], lines 18-33, as a function of the integers that
    [np.random.randint(0, int(max_int / 2), batch_size)] drew. *)
Definition batch_from_data (sampled_integers : list Z) : option Tensor :=
  match comprehension (fun x => list_from_num (x * 2)) sampled_integers with
  | None => None
  | Some data => tensor_of_rows (map pad data)
  end.

(** The number a list of binary digits spells, most significant first. *)
Definition spelled (digits : list Z) : Z := fold_left (fun acc d => 2 * acc + d)%Z digits 0%Z.

Definition is_bit (d : Z) : Prop := d = 0%Z \/ d = 1%Z.

(** What one sampled integer contributes to the batch. *)
Definition row_of (x : Z) (row : list Z) : Prop :=
  length row = 7%nat /\ spelled row = (2 * x)%Z /\ Forall is_bit row /\ last row 1%Z = 0%Z.

(** The shape of a tensor of rows: the length of each row. *)
Definition shape (t : Tensor) : list nat := map (@length Q) t.

Fixpoint same_shape (a b : list nat) : bool :=
  match a, b with
  | [], [] => true
  | x :: a', y :: b' => Nat.eqb x y && same_shape a' b'
  | _, _ => false
  end.

(** [prediction[label == v]]: the mask [label == v] must have the shape of
    the tensor it indexes, and the result is the flat list of the entries the
    mask selects. *)
Definition masked (prediction label : Tensor) (v : Q) : Result (list Q) :=
  if same_shape (shape prediction) (shape label)
  then Ok (map snd (filter (fun lp => Qeq_bool (fst lp) v)
                      (combine (flatten label) (flatten prediction))))
  else IndexError.

(** [genLoss], lines 62-63. *)
Definition genLoss (prediction label : Tensor) : Q := - mean (flatten prediction).

(** [disLoss], lines 65-68. *)
Definition disLoss (prediction label : Tensor) : Result Q :=
  match masked prediction label 0 with
  | IndexError => IndexError
  | Ok pred_fake =>
      match masked prediction label 1 with
      | IndexError => IndexError
      | Ok pred_real => Ok (- (mean pred_real - mean pred_fake))
      end
  end.

(** The two losses of the test script, as the trainer is given them. *)
Definition script_losses (tt : Role) (prediction label : Tensor) : Result Q :=
  match tt with
  | G => Ok (genLoss prediction label)
  | D => disLoss prediction label
  end.

(** A critic that returns no score at all, with the losses of the test
    script. *)
Definition toy_silent (policy : Stats -> Role) : Env :=
  mkEnv nat
    (fun n _ w => (repeat [0] n, w))
    (fun n _ w => (repeat [1] n, w))
    (fun r _ _ x w =>
       match r with
       | G => (x, w)
       | D => ([], w)
       end)
    (fun tt pred y w => (script_losses tt pred y, w))
    (fun st w => (policy st, w))
    (fun _ w => w)
    (fun w => w)
    (fun _ p w => (p, w))
    (fun _ _ => []).

(** What the loop needs of the critic and of the losses to run to its end:
    the critic returns one score per row, and a loss returns when its
    prediction has the shape of its labels. *)
Record Scoring (E : Env) : Prop := mkScoring {
  critic_shape :
    forall p m x w, shape (fst (forward E D p m x w)) = repeat 1%nat (length x);
  loss_returns :
    forall tt pred y w,
      shape pred = shape y -> exists q, fst (loss_functions E tt pred y w) = Ok q
}.

(** [x'] is [x] clamped into [-0.01, 0.01], said without the code's [clamp]. *)
Definition clamped_to (x x' : Q) : Prop :=
  (- (1 # 100) <= x' /\ x' <= 1 # 100) /\
  (x < - (1 # 100) -> x' = - (1 # 100)) /\
  (1 # 100 < x -> x' = 1 # 100) /\
  (- (1 # 100) <= x /\ x <= 1 # 100 -> x' = x).

(** A value of a rate ledger. *)
Definition is_rate (x : Q) : Prop := 0 <= x /\ x <= 1.

(** The three rate sequences hold values between 0 and 1. *)
Definition rates_in_unit (st : Stats) : Prop :=
  Forall is_rate (d_fpr st) /\ Forall is_rate (d_precision st) /\ Forall is_rate (d_recall st).

(** ** Running a computation, one statement at a time *)

Section Running.

Context {E : Env}.

Lemma bind_bind {A B C : Type} (m : M E A) (k1 : A -> M E B) (k2 : B -> M E C) s :
  bind (bind m k1) k2 s = bind m (fun x => bind (k1 x) k2) s.
Proof. unfold bind. destruct (m s) as [[a|] s1]; reflexivity. Qed.

Lemma bind_ret {A B : Type} (a : A) (k : A -> M E B) s : bind (ret a) k s = k a s.
Proof. reflexivity. Qed.

Lemma bind_skip {B : Type} (k : unit -> M E B) s : bind skip k s = k tt s.
Proof. reflexivity. Qed.

Lemma bind_gets {A B : Type} (f : Trainer E -> A) (k : A -> M E B) s :
  bind (gets f) k s = k (f s) s.
Proof. reflexivity. Qed.

Lemma bind_modify {B : Type} (f : Trainer E -> Trainer E) (k : unit -> M E B) s :
  bind (modify f) k s = k tt (f s).
Proof. reflexivity. Qed.

Lemma bind_exec {B : Type} (f : World E -> World E) (k : unit -> M E B) s :
  bind (exec f) k s = k tt (set_world (f (world s)) s).
Proof. reflexivity. Qed.

Lemma bind_call {A B : Type} (f : World E -> A * World E) (k : A -> M E B) s :
  bind (call f) k s = k (fst (f (world s))) (set_world (snd (f (world s))) s).
Proof. unfold bind, call. destruct (f (world s)); reflexivity. Qed.

Lemma bind_lift {A B : Type} (r : Result A) (k : A -> M E B) s :
  bind (lift r) k s =
  match r with
  | Ok a => k a s
  | IndexError => (IndexError, s)
  end.
Proof. unfold bind, lift. destruct r; reflexivity. Qed.

Lemma bind_call_result {A B : Type} (f : World E -> Result A * World E)
    (k : A -> M E B) s :
  bind (call_result f) k s =
  match fst (f (world s)) with
  | Ok a => k a (set_world (snd (f (world s))) s)
  | IndexError => (IndexError, set_world (snd (f (world s))) s)
  end.
Proof. unfold bind, call_result. destruct (f (world s)) as [[a|] w]; reflexivity. Qed.

Lemma call_run {A : Type} (f : World E -> A * World E) s :
  call f s = (Ok (fst (f (world s))), set_world (snd (f (world s))) s).
Proof. unfold call. destruct (f (world s)); reflexivity. Qed.

End Running.

(** Reads the fields of an updated trainer. *)
Ltac fields :=
  cbn [fst snd world mode params stats d_thresh device trace
       set_world set_mode_of set_params set_stats log upd role_eqb].

(** Runs the statement at the head of the goal's computation. *)
Ltac run1 :=
  first [ rewrite bind_bind | rewrite bind_ret | rewrite bind_skip
        | rewrite bind_gets | rewrite bind_modify | rewrite bind_exec
        | rewrite bind_call | rewrite bind_call_result | rewrite call_run ];
  cbv beta; fields.

(** Names the result of the collaborator call the goal projects from. *)
Ltac name_call :=
  match goal with
  | H : ?e = (_, _) |- context [?e] => rewrite H; fields
  | |- context [@fst _ (World _) ?e] =>
      lazymatch e with
      | context [@fst _ (World _) _] => fail
      | context [@snd _ (World _) _] => fail
      | _ => let a := fresh "a" in let w := fresh "w" in
             destruct e as [a w] eqn:?; fields
      end
  | |- context [@snd _ (World _) ?e] =>
      lazymatch e with
      | context [@fst _ (World _) _] => fail
      | context [@snd _ (World _) _] => fail
      | _ => let a := fresh "a" in let w := fresh "w" in
             destruct e as [a w] eqn:?; fields
      end
  end.

Ltac run := repeat (run1; repeat name_call).

Ltac unfold_methods :=
  cbv [train_step in_functions generator_input discriminator_input
       eval_generator eval call_model set_mode].

(** ** The confusion counters *)

Lemma count_cons {A : Type} (f : A -> bool) (a : A) (l : list A) :
  count f (a :: l) = ((if f a then 1 else 0) + count f l)%nat.
Proof. unfold count. simpl. destruct (f a); reflexivity. Qed.

Lemma skipn_nth_error {A : Type} (l : list A) (i : nat) (a : A) :
  nth_error l i = Some a -> skipn i l = a :: skipn (S i) l.
Proof.
  revert i. induction l as [|b l IH]; intros [|i] H; simpl in H; try discriminate.
  - injection H as ->. reflexivity.
  - simpl. rewrite (IH i H). reflexivity.
Qed.

Lemma confusion_from_counts (thresh : Q) (pred : list Q) (ys : list Q) :
  forall (i : nat) (c0 c : Counts),
    confusion_from thresh pred i ys c0 = Ok c ->
    let pairs := combine ys (skipn i pred) in
    fP c = (fP c0 + count (is_fP thresh) pairs)%nat /\
    fN c = (fN c0 + count (is_fN thresh) pairs)%nat /\
    tP c = (tP c0 + count (is_tP thresh) pairs)%nat /\
    tN c = (tN c0 + count (is_tN thresh) pairs)%nat /\
    (length ys = 0 \/ i + length ys <= length pred)%nat.
Proof.
  induction ys as [|y ys IH]; intros i c0 c H; simpl in H.
  - injection H as <-. cbn. unfold count. simpl. repeat split; lia.
  - destruct (nth_error pred i) as [p|] eqn:Hp; [|discriminate].
    apply IH in H. cbv zeta in H.
    assert (Hlt : (i < length pred)%nat) by (apply nth_error_Some; congruence).
    cbv zeta. rewrite (skipn_nth_error _ _ _ Hp). cbn [combine].
    rewrite !count_cons.
    change (is_fP thresh (y, p)) with (Qeq_bool y 0 && Qgtb p thresh).
    change (is_tN thresh (y, p)) with (Qeq_bool y 0 && negb (Qgtb p thresh)).
    change (is_tP thresh (y, p)) with (negb (Qeq_bool y 0) && Qgtb p thresh).
    change (is_fN thresh (y, p)) with (negb (Qeq_bool y 0) && negb (Qgtb p thresh)).
    destruct H as (H1 & H2 & H3 & H4 & H5).
    unfold count_one in *.
    destruct (Qeq_bool y 0), (Qgtb p thresh); cbn [fP fN tP tN andb negb] in *;
      cbn [length]; repeat split; lia.
Qed.

Lemma confusion_from_total (thresh : Q) (pred : list Q) (ys : list Q) :
  forall (i : nat) (c0 : Counts),
    (i + length ys <= length pred)%nat ->
    exists c, confusion_from thresh pred i ys c0 = Ok c.
Proof.
  induction ys as [|y ys IH]; intros i c0 H; simpl in *.
  - eauto.
  - destruct (nth_error pred i) as [p|] eqn:Hp.
    + apply IH. lia.
    + apply nth_error_None in Hp. lia.
Qed.

Lemma confusion_counts (thresh : Q) (ys pred : list Q) (c : Counts) :
  confusion thresh ys pred = Ok c ->
  fP c = count (is_fP thresh) (combine ys pred) /\
  fN c = count (is_fN thresh) (combine ys pred) /\
  tP c = count (is_tP thresh) (combine ys pred) /\
  tN c = count (is_tN thresh) (combine ys pred) /\
  (length ys <= length pred)%nat.
Proof.
  intros H. apply confusion_from_counts in H. cbn in H.
  destruct H as (H1 & H2 & H3 & H4 & H5). repeat split; try assumption. lia.
Qed.

Lemma confusion_total (thresh : Q) (ys pred : list Q) :
  (length ys <= length pred)%nat -> exists c, confusion thresh ys pred = Ok c.
Proof. intros H. apply confusion_from_total. simpl. exact H. Qed.

(** No pair with a zero label is a positive of the label, and conversely. *)
Lemma count_none {A : Type} (f : A -> bool) (l : list A) :
  Forall (fun a => f a = false) l -> count f l = 0%nat.
Proof.
  induction 1 as [|a l Ha _ IH]; [reflexivity|].
  rewrite count_cons, Ha, IH. reflexivity.
Qed.

Lemma Forall_combine_fst {A B : Type} (P : A -> Prop) (l : list A) (l' : list B) :
  Forall P l -> Forall (fun ab => P (fst ab)) (combine l l').
Proof.
  intros H. revert l'. induction H as [|a l Ha _ IH]; intros [|b l']; simpl; constructor; auto.
Qed.

Lemma flatten_repeat (x : Q) (n : nat) : flatten (repeat [x] n) = repeat x n.
Proof.
  unfold flatten. induction n as [|n IH]; [reflexivity|].
  cbn [repeat concat app]. rewrite IH. reflexivity.
Qed.

Lemma flatten_app (a b : Tensor) : flatten (a ++ b) = flatten a ++ flatten b.
Proof. apply concat_app. Qed.

Lemma Forall_repeat {A : Type} (P : A -> Prop) (x : A) (n : nat) :
  P x -> Forall P (repeat x n).
Proof. intros H. induction n; simpl; constructor; auto. Qed.

Lemma halves (n : nat) : (ceil_half n + floor_half n = n)%nat.
Proof.
  unfold ceil_half, floor_half.
  pose proof (Nat.div_mod_eq n 2) as Hn. pose proof (Nat.div_mod_eq (n + 1) 2) as Hs.
  pose proof (Nat.mod_upper_bound n 2 ltac:(lia)) as Bn.
  pose proof (Nat.mod_upper_bound (n + 1) 2 ltac:(lia)) as Bs.
  lia.
Qed.

Lemma toy_contracts (policy : Stats -> Role) : Contracts (toy policy).
Proof.
  constructor; cbn; intros.
  - apply repeat_length.
  - apply repeat_length.
  - reflexivity.
  - unfold flatten. clear. induction x as [|row x IH]; cbn in *; lia.
Qed.

(** ** The two input-construction functions *)

(** C7: for every batch size [n_batch], [generator_input] asks the latent
    sampler for [n_batch] points, runs the generator on them and returns the
    generator's output with [n_batch] labels, every one of them 1. *)
Theorem generator_input_labels_all_one (E : Env) (n_batch : nat) (s : Trainer E) :
  let gen_in := latent_space E n_batch (Some (device s)) (world s) in
  let gen_out := forward E G (params s G) (mode s G) (fst gen_in) (snd gen_in) in
  exists y : Tensor,
    fst (generator_input n_batch s) = Ok (fst gen_out, y) /\
    length y = n_batch /\
    Forall (fun row => row = [1]) y /\
    flatten y = repeat 1 n_batch.
Proof.
  cbv zeta. exists (repeat [1] n_batch). split; [|split; [|split]].
  - unfold_methods. run. reflexivity.
  - apply repeat_length.
  - apply Forall_repeat. reflexivity.
  - apply flatten_repeat.
Qed.

(** C4: for batch size 16, [discriminator_input] returns the generator's
    output on 8 fresh latent points followed by 8 rows of the real dataset,
    with the labels 8 zeros followed by 8 ones; when the collaborators return
    the row counts they are asked for, rows 0-7 of the input are the
    generator's and rows 8-15 the dataset's. *)
Theorem discriminator_input_16 (E : Env) (s : Trainer E) :
  let gen_in := latent_space E 8 (Some (device s)) (world s) in
  let gen_out := forward E G (params s G) Inference (fst gen_in) (snd gen_in) in
  let real := dataset E 8 (Some (device s)) (snd gen_out) in
  exists dis_in y : Tensor,
    fst (discriminator_input 16 s) = Ok (dis_in, y) /\
    dis_in = fst gen_out ++ fst real /\
    y = [[0]; [0]; [0]; [0]; [0]; [0]; [0]; [0]; [1]; [1]; [1]; [1]; [1]; [1]; [1]; [1]] /\
    flatten y = [0; 0; 0; 0; 0; 0; 0; 0; 1; 1; 1; 1; 1; 1; 1; 1] /\
    (Contracts E ->
     firstn 8 dis_in = fst gen_out /\ skipn 8 dis_in = fst real /\
     length dis_in = 16%nat).
Proof.
  cbv zeta.
  exists (fst (forward E G (params s G) Inference
                 (fst (latent_space E 8 (Some (device s)) (world s)))
                 (snd (latent_space E 8 (Some (device s)) (world s)))) ++
          fst (dataset E 8 (Some (device s))
                 (snd (forward E G (params s G) Inference
                         (fst (latent_space E 8 (Some (device s)) (world s)))
                         (snd (latent_space E 8 (Some (device s)) (world s))))))).
  exists (repeat [0] 8 ++ repeat [1] 8).
  split; [|split; [reflexivity|split; [|split]]].
  - unfold_methods.
    change (ceil_half 16) with 8%nat. change (floor_half 16) with 8%nat.
    run. reflexivity.
  - reflexivity.
  - reflexivity.
  - intros C.
    assert (Hg : length (fst (forward E G (params s G) Inference
                   (fst (latent_space E 8 (Some (device s)) (world s)))
                   (snd (latent_space E 8 (Some (device s)) (world s))))) = 8%nat).
    { rewrite (generator_rows E C). apply (latent_rows E C). }
    repeat split.
    + rewrite firstn_app, Hg, Nat.sub_diag, firstn_O, app_nil_r.
      rewrite <- Hg at 1. apply firstn_all.
    + rewrite skipn_app, Hg, Nat.sub_diag, skipn_O.
      rewrite <- Hg at 1. rewrite skipn_all. reflexivity.
    + rewrite length_app, Hg, (dataset_rows E C). reflexivity.
Qed.

(** [discriminator_input_16] on the concrete instance. *)
Lemma discriminator_input_16_witness :
  Contracts (toy alternate) /\
  exists dis_in y : Tensor,
    fst (discriminator_input 16 (toy_init alternate all_training)) = Ok (dis_in, y) /\
    firstn 8 dis_in = repeat [0] 8 /\ skipn 8 dis_in = repeat [1] 8 /\
    flatten y = [0; 0; 0; 0; 0; 0; 0; 0; 1; 1; 1; 1; 1; 1; 1; 1].
Proof.
  split; [apply toy_contracts|].
  destruct (discriminator_input_16 (toy alternate) (toy_init alternate all_training))
    as (dis_in & y & H1 & H2 & H3 & H4 & H5).
  exists dis_in, y. destruct (H5 (toy_contracts alternate)) as (H6 & H7 & _).
  split; [exact H1|]. split; [rewrite H6; reflexivity|].
  split; [rewrite H7; reflexivity|exact H4].
Defined.

(** C8: for an odd batch size [2k+1], [discriminator_input] asks the latent
    sampler for [k+1] points (the fake half, labelled 0) and the dataset for
    [k] rows (the real half, labelled 1); with collaborators that return the
    row counts asked for, the input and the labels both have [2k+1] rows. *)
Theorem discriminator_input_odd_split (E : Env) (k : nat) (s : Trainer E) :
  Contracts E ->
  let n_batch := (2 * k + 1)%nat in
  let gen_in := latent_space E (k + 1) (Some (device s)) (world s) in
  let gen_out := forward E G (params s G) Inference (fst gen_in) (snd gen_in) in
  let real := dataset E k (Some (device s)) (snd gen_out) in
  exists dis_in y : Tensor,
    fst (discriminator_input n_batch s) = Ok (dis_in, y) /\
    dis_in = fst gen_out ++ fst real /\
    y = repeat [0] (k + 1) ++ repeat [1] k /\
    length (fst gen_out) = (k + 1)%nat /\
    length (fst real) = k /\
    length dis_in = n_batch /\
    length y = n_batch.
Proof.
  intros C. cbv zeta.
  assert (Hc : ceil_half (2 * k + 1) = (k + 1)%nat).
  { unfold ceil_half. replace (2 * k + 1 + 1)%nat with ((k + 1) * 2)%nat by lia.
    apply Nat.div_mul. discriminate. }
  assert (Hf : floor_half (2 * k + 1) = k).
  { unfold floor_half. symmetry. apply (Nat.div_unique _ 2 k 1); lia. }
  exists (fst (forward E G (params s G) Inference
                 (fst (latent_space E (k + 1) (Some (device s)) (world s)))
                 (snd (latent_space E (k + 1) (Some (device s)) (world s)))) ++
          fst (dataset E k (Some (device s))
                 (snd (forward E G (params s G) Inference
                         (fst (latent_space E (k + 1) (Some (device s)) (world s)))
                         (snd (latent_space E (k + 1) (Some (device s)) (world s))))))).
  exists (repeat [0] (k + 1) ++ repeat [1] k).
  split; [|split; [reflexivity|split; [reflexivity|]]].
  - unfold_methods. rewrite Hc, Hf. run. reflexivity.
  - rewrite !length_app, !repeat_length, (generator_rows E C), (latent_rows E C),
      (dataset_rows E C).
    repeat split; lia.
Qed.

(** [discriminator_input_odd_split] at batch size 5. *)
Lemma discriminator_input_odd_split_witness :
  Contracts (toy alternate) /\
  exists dis_in y : Tensor,
    fst (discriminator_input 5 (toy_init alternate all_training)) = Ok (dis_in, y) /\
    y = [[0]; [0]; [0]; [1]; [1]] /\ length dis_in = 5%nat.
Proof.
  split; [apply toy_contracts|].
  destruct (discriminator_input_odd_split (toy alternate) 2
              (toy_init alternate all_training) (toy_contracts alternate))
    as (dis_in & y & H1 & _ & H3 & _ & _ & H6 & _).
  exists dis_in, y. split; [exact H1|]. split; [exact H3|exact H6].
Defined.

(** ** One iteration of the training loop *)

(** Runs [train_step] in the goal, splitting on the scheduled role and on
    the outcome of the confusion loop. *)
Ltac run_step :=
  unfold_methods; run;
  match goal with
  | H : totrain_next _ _ _ = (?r, _) |- _ => destruct r
  end;
  fields; run;
  (match goal with
   | H : loss_functions _ _ _ _ _ = (?l, _) |- _ => destruct l
   end;
   [ run; rewrite bind_lift;
     match goal with
     | |- context [confusion ?t ?y ?p] => destruct (confusion t y p) eqn:?
     end;
     run; unfold ret; cbn [fst snd]
   | cbn [fst snd] ]).

Lemma clamp_in_range (x : Q) : in_clamp_range (clamp x).
Proof.
  unfold in_clamp_range, clamp. split.
  - apply Q.min_glb.
    + apply Q.le_max_r.
    + unfold clamp_lo, clamp_hi. discriminate.
  - apply Q.le_min_r.
Qed.

Lemma clamp_params_in_range (p : Params) : Forall (Forall in_clamp_range) (clamp_params p).
Proof.
  unfold clamp_params. apply Forall_map, Forall_forall. intros t _.
  apply Forall_map, Forall_forall. intros x _. apply clamp_in_range.
Qed.

Lemma clamp_fixes (x : Q) : in_clamp_range x -> clamp x = x.
Proof.
  intros [Hlo Hhi]. unfold clamp, Qmax, Qmin, GenericMinMax.gmax, GenericMinMax.gmin.
  destruct (x ?= clamp_lo) eqn:Hc.
  - destruct (x ?= clamp_hi) eqn:Hc'; try reflexivity.
    apply Qgt_alt in Hc'. exfalso. exact (Qlt_not_le _ _ Hc' Hhi).
  - apply Qlt_alt in Hc. exfalso. exact (Qlt_not_le _ _ Hc Hlo).
  - destruct (x ?= clamp_hi) eqn:Hc'; try reflexivity.
    apply Qgt_alt in Hc'. exfalso. exact (Qlt_not_le _ _ Hc' Hhi).
Qed.

Lemma clamp_entry (x : Q) : clamped_to x (clamp x).
Proof.
  unfold clamped_to. split; [exact (clamp_in_range x)|]. split; [|split].
  - intros H. change (- (1 # 100)) with clamp_lo in H.
    pose proof (proj1 (Qlt_alt x clamp_lo) H) as Hc.
    unfold clamp, Qmax, Qmin, GenericMinMax.gmax, GenericMinMax.gmin.
    rewrite Hc. reflexivity.
  - intros H. change (1 # 100) with clamp_hi in H.
    assert (Hlo : clamp_lo < x).
    { apply (Qlt_trans _ clamp_hi); [reflexivity|exact H]. }
    pose proof (proj1 (Qgt_alt x clamp_lo) Hlo) as Hc.
    pose proof (proj1 (Qgt_alt x clamp_hi) H) as Hc'.
    unfold clamp, Qmax, Qmin, GenericMinMax.gmax, GenericMinMax.gmin.
    rewrite Hc, Hc'. reflexivity.
  - intros H. apply clamp_fixes. exact H.
Qed.

Lemma clamp_params_entrywise (p : Params) : Forall2 (Forall2 clamped_to) p (clamp_params p).
Proof.
  unfold clamp_params. induction p as [|t p IH]; [constructor|].
  cbn [map]. constructor; [|exact IH].
  induction t as [|x t IHt]; [constructor|].
  cbn [map]. constructor; [apply clamp_entry|exact IHt].
Qed.

Lemma clamp_params_shape (p : Params) : shape (clamp_params p) = shape p.
Proof.
  unfold shape, clamp_params. rewrite map_map. apply map_ext. intros t. apply length_map.
Qed.

(** C1: whenever the policy schedules the critic and the iteration runs to
    its end, the critic's parameters at the end of the iteration are what its
    optimizer step produced, clamped entry by entry: the same tensors of the
    same sizes, in which an entry below -0.01 has become -0.01, an entry above
    0.01 has become 0.01 and an entry in between is as the optimizer left it;
    so every value lies in [-0.01, 0.01]. *)
Theorem critic_step_clamps_weights (E : Env) (n_batch : nat) (all_dists r : list Q)
    (s s' : Trainer E) :
  fst (totrain_next E (stats s) (world s)) = D ->
  train_step n_batch all_dists s = (Ok r, s') ->
  (exists w,
     let stepped := fst (opt_step E D (params s D) w) in
     params s' D = clamp_params stepped /\
     shape (params s' D) = shape stepped /\
     Forall2 (Forall2 clamped_to) stepped (params s' D)) /\
  Forall (Forall (fun x => - (1 # 100) <= x /\ x <= 1 # 100)) (params s' D) /\
  Forall (Forall in_clamp_range) (params s' D) /\
  In Clamp (trace s').
Proof.
  run_step; intros Hd H; try discriminate Hd; try discriminate H.
  injection H as _ <-. fields. split; [|split; [|split]].
  - eexists. cbv zeta.
    match goal with H : opt_step _ _ _ _ = _ |- _ => rewrite H end. cbn [fst].
    split; [reflexivity|]. split.
    + apply clamp_params_shape.
    + apply clamp_params_entrywise.
  - apply clamp_params_in_range.
  - apply clamp_params_in_range.
  - rewrite !in_app_iff. cbn. tauto.
Qed.

(** [critic_step_clamps_weights] on the first iteration of the concrete
    instance, whose optimizer pushes every weight out of the range. *)
Lemma critic_step_clamps_weights_witness :
  let s := toy_init alternate all_training in
  let out := train_step 4 [] s in
  fst (totrain_next (toy alternate) (stats s) (world s)) = D /\
  out = (Ok (value [] (fst out)), snd out) /\
  shape (params (snd out) D) = [2; 1]%nat /\
  Forall (Forall in_clamp_range) (params (snd out) D).
Proof.
  cbv zeta.
  assert (Hd : fst (totrain_next (toy alternate) (stats (toy_init alternate all_training))
                      (world (toy_init alternate all_training))) = D) by reflexivity.
  assert (Hr : train_step 4 [] (toy_init alternate all_training) =
               (Ok (value [] (fst (train_step 4 [] (toy_init alternate all_training)))),
                snd (train_step 4 [] (toy_init alternate all_training))))
    by (vm_compute; reflexivity).
  split; [exact Hd|]. split; [exact Hr|].
  destruct (critic_step_clamps_weights (toy alternate) 4 [] _ _ _ Hd Hr)
    as ((w & _ & Hshape & _) & _ & Hrange & _).
  split; [|exact Hrange]. rewrite Hshape. reflexivity.
Defined.

(** ** One iteration, statement by statement *)

(** Lines 42-83 of an iteration, whatever its outcome: the role scheduled,
    the batch built for it, the discriminator's prediction on that batch, the
    loss of the role on prediction and labels, and what is logged. *)
Lemma train_step_pipeline (E : Env) (n_batch : nat) (all_dists : list Q)
    (res : Result (list Q)) (s s' : Trainer E) :
  train_step n_batch all_dists s = (res, s') ->
  let pol := totrain_next E (stats s) (world s) in
  let batch := in_functions (fst pol) n_batch (set_world (snd pol) s) in
  exists dis_in y : Tensor,
    fst batch = Ok (dis_in, y) /\
    y = match fst pol with
        | G => repeat [1] n_batch
        | D => repeat [0] (ceil_half n_batch) ++ repeat [1] (floor_half n_batch)
        end /\
    let fw := forward E D (params s D)
                (match fst pol with G => Inference | D => mode s D end)
                dis_in (world (snd batch)) in
    let ls := loss_functions E (fst pol) (fst fw) y (snd fw) in
    match fst ls with
    | IndexError => res = IndexError /\ stats s' = stats s
    | Ok loss =>
        match confusion (d_thresh s) (flatten y) (flatten (fst fw)) with
        | Ok c =>
            (exists r, res = Ok r) /\
            stats s' = log_rates c (log_loss (fst pol) loss (stats s))
        | IndexError =>
            res = IndexError /\ stats s' = log_loss (fst pol) loss (stats s)
        end
    end.
Proof.
  run_step; intros H; injection H as <- <-; fields.
  all: match goal with
       | H : forward _ D _ _ ?x _ = _ |- _ =>
           exists x; eexists; split; [|split; [reflexivity|]]
       end.
  all: try (unfold_methods; run; reflexivity).
  all: cbv zeta; unfold_methods; run; unfold ret; fields.
  all: repeat (match goal with
               | H : ?e = _ |- context [?e] => rewrite H
               end; cbn [fst snd]).
  all: try (split; [eexists|]; reflexivity).
  all: try (split; reflexivity).
Qed.

(** The same for an iteration that completes. *)
Lemma train_step_completed (E : Env) (n_batch : nat) (all_dists r : list Q)
    (s s' : Trainer E) :
  train_step n_batch all_dists s = (Ok r, s') ->
  let pol := totrain_next E (stats s) (world s) in
  let batch := in_functions (fst pol) n_batch (set_world (snd pol) s) in
  exists (dis_in y : Tensor) (loss : Q) (c : Counts),
    fst batch = Ok (dis_in, y) /\
    y = match fst pol with
        | G => repeat [1] n_batch
        | D => repeat [0] (ceil_half n_batch) ++ repeat [1] (floor_half n_batch)
        end /\
    let fw := forward E D (params s D)
                (match fst pol with G => Inference | D => mode s D end)
                dis_in (world (snd batch)) in
    fst (loss_functions E (fst pol) (fst fw) y (snd fw)) = Ok loss /\
    confusion (d_thresh s) (flatten y) (flatten (fst fw)) = Ok c /\
    stats s' = log_rates c (log_loss (fst pol) loss (stats s)).
Proof.
  intros H. destruct (train_step_pipeline E n_batch all_dists (Ok r) s s' H)
    as (dis_in & y & Hb & Hy & Hrest).
  cbv zeta in *.
  destruct (fst (loss_functions _ _ _ _ _)) as [loss|] eqn:Hl;
    [|destruct Hrest as [Hrest _]; discriminate Hrest].
  destruct (confusion _ _ _) as [c|] eqn:Hc;
    [|destruct Hrest as [Hrest _]; discriminate Hrest].
  exists dis_in, y, loss, c. repeat split; try assumption. exact (proj2 Hrest).
Qed.

(** ** The ledger of losses *)

Lemma train_step_ledger (E : Env) (n_batch : nat) (all_dists r : list Q) (s s' : Trainer E) :
  train_step n_batch all_dists s = (Ok r, s') ->
  let tt := fst (totrain_next E (stats s) (world s)) in
  (exists loss, losses (stats s') tt = losses (stats s) tt ++ [loss]) /\
  epochs_trained (stats s') tt = (epochs_trained (stats s) tt + 1)%nat /\
  losses (stats s') (other tt) = losses (stats s) (other tt) /\
  epochs_trained (stats s') (other tt) = epochs_trained (stats s) (other tt).
Proof.
  run_step; intros H; try discriminate H; injection H as _ <-; fields;
    cbn; repeat split; eexists; reflexivity.
Qed.

Lemma train_loop_succ (E : Env) (n n_batch : nat) (acc r : list Q) (s s' : Trainer E) :
  train_loop (S n) n_batch acc s = (Ok r, s') ->
  exists acc1 s1,
    train_step n_batch acc s = (Ok acc1, s1) /\
    train_loop n n_batch acc1 s1 = (Ok r, s').
Proof.
  cbn [train_loop]. unfold bind at 1.
  destruct (train_step n_batch acc s) as [[acc1|] s1]; [|discriminate].
  intros H. eauto.
Qed.

Lemma train_loop_ledger (E : Env) (n_batch : nat) :
  forall (n : nat) (acc r : list Q) (s s' : Trainer E),
    train_loop n n_batch acc s = (Ok r, s') ->
    total_losses (stats s') = (total_losses (stats s) + n)%nat /\
    total_epochs (stats s') = (total_epochs (stats s) + n)%nat.
Proof.
  induction n as [|n IH]; intros acc r s s' H.
  - injection H as _ <-. split; lia.
  - apply train_loop_succ in H. destruct H as (acc1 & s1 & Hstep & Hrest).
    apply IH in Hrest. apply train_step_ledger in Hstep. cbv zeta in Hstep.
    destruct Hstep as ((loss & Hl) & He & Hlo & Heo).
    unfold total_losses, total_epochs in *.
    apply (f_equal (@length Q)) in Hl, Hlo. rewrite length_app in Hl. cbn [length] in Hl.
    destruct (fst (totrain_next E (stats s) (world s))); cbn [other] in *; lia.
Qed.

(** C2: an iteration that completes appends exactly one value to the loss
    sequence of the role the policy selected, namely the loss that role's loss
    function returned on the discriminator's prediction for the batch and on
    the batch's labels, and adds one to that role's counter, leaving the other
    role's entries alone; so a run of [n_epochs] iterations adds [n_epochs]
    to the summed lengths of the two loss sequences, which is [n_epochs]
    itself for a trainer fresh from [__init__]. *)
Theorem losses_count_steps (E : Env) (n_batch : nat) :
  (forall (all_dists r : list Q) (s s' : Trainer E),
     train_step n_batch all_dists s = (Ok r, s') ->
     let pol := totrain_next E (stats s) (world s) in
     let tt := fst pol in
     let batch := in_functions tt n_batch (set_world (snd pol) s) in
     exists (dis_in y : Tensor) (loss : Q),
       fst batch = Ok (dis_in, y) /\
       (let fw := forward E D (params s D)
                    (match tt with G => Inference | D => mode s D end)
                    dis_in (world (snd batch)) in
        fst (loss_functions E tt (fst fw) y (snd fw)) = Ok loss) /\
       losses (stats s') tt = losses (stats s) tt ++ [loss] /\
       epochs_trained (stats s') tt = (epochs_trained (stats s) tt + 1)%nat /\
       losses (stats s') (other tt) = losses (stats s) (other tt) /\
       epochs_trained (stats s') (other tt) = epochs_trained (stats s) (other tt)) /\
  (forall (n_epochs : nat) (r : list Q) (s s' : Trainer E),
     train n_epochs n_batch s = (Ok r, s') ->
     total_losses (stats s') = (total_losses (stats s) + n_epochs)%nat /\
     total_epochs (stats s') = (total_epochs (stats s) + n_epochs)%nat) /\
  (forall (n_epochs : nat) (r : list Q) w md ps thresh dev (s' : Trainer E),
     train n_epochs n_batch (init w md ps thresh dev) = (Ok r, s') ->
     (length (losses (stats s') G) + length (losses (stats s') D))%nat = n_epochs).
Proof.
  split; [|split].
  - intros all_dists r s s' H. cbv zeta.
    destruct (train_step_completed E n_batch all_dists r s s' H)
      as (dis_in & y & loss & c & Hb & _ & Hl & _ & Hs).
    cbv zeta in Hl. exists dis_in, y, loss. split; [exact Hb|]. split; [exact Hl|].
    rewrite Hs. destruct (fst (totrain_next E (stats s) (world s))); cbn; repeat split.
  - intros n_epochs r s s' H. exact (train_loop_ledger E n_batch n_epochs [] r s s' H).
  - intros n_epochs r w md ps thresh dev s' H.
    apply train_loop_ledger in H. destruct H as [H _].
    unfold total_losses in H. cbn in H. exact H.
Qed.

(** [losses_count_steps] on the concrete instance: the first iteration
    appends the critic's loss on its batch, and a run of five iterations
    holds five losses. *)
Lemma losses_count_steps_witness :
  let step := train_step 4 [] (toy_init alternate all_training) in
  let out := train 5 4 (toy_init alternate all_training) in
  step = (Ok (value [] (fst step)), snd step) /\
  out = (Ok (value [] (fst out)), snd out) /\
  losses (stats (snd step)) D = [mean [1; 1; 2; 2]] /\
  (length (losses (stats (snd out)) G) + length (losses (stats (snd out)) D))%nat = 5%nat.
Proof.
  cbv zeta.
  assert (Hs : train_step 4 [] (toy_init alternate all_training) =
               (Ok (value [] (fst (train_step 4 [] (toy_init alternate all_training)))),
                snd (train_step 4 [] (toy_init alternate all_training))))
    by (vm_compute; reflexivity).
  assert (Hr : train 5 4 (toy_init alternate all_training) =
               (Ok (value [] (fst (train 5 4 (toy_init alternate all_training)))),
                snd (train 5 4 (toy_init alternate all_training))))
    by (vm_compute; reflexivity).
  split; [exact Hs|]. split; [exact Hr|]. split.
  - destruct (proj1 (losses_count_steps (toy alternate) 4) [] _ _ _ Hs)
      as (dis_in & y & loss & Hb & Hl & Happ & _).
    cbv zeta in Hb, Hl, Happ.
    assert (Hb' : Ok ([[0]; [0]; [1]; [1]], [[0]; [0]; [1]; [1]]) = Ok (dis_in, y))
      by exact Hb.
    injection Hb' as <- <-.
    assert (Hl' : Ok (mean [1; 1; 2; 2]) = Ok loss) by exact Hl.
    injection Hl' as <-. exact Happ.
  - exact (proj2 (proj2 (losses_count_steps (toy alternate) 4)) 5%nat _ _ _ _ _ _ _ Hr).
Defined.

(** ** The history of Wasserstein distances *)

(** Brings in what the contracts say of the calls named in the context. *)
Ltac use_contracts C :=
  repeat match goal with
  | H : latent_space ?E ?n ?d ?w = (?a, _) |- _ =>
      lazymatch goal with
      | _ : length a = n |- _ => fail
      | _ => let F := fresh "F" in
             pose proof (latent_rows E C n d w) as F; rewrite H in F; cbn [fst] in F
      end
  | H : dataset ?E ?n ?d ?w = (?a, _) |- _ =>
      lazymatch goal with
      | _ : length a = n |- _ => fail
      | _ => let F := fresh "F" in
             pose proof (dataset_rows E C n d w) as F; rewrite H in F; cbn [fst] in F
      end
  | H : forward ?E G ?p ?m ?x ?w = (?a, _) |- _ =>
      lazymatch goal with
      | _ : length a = length x |- _ => fail
      | _ => let F := fresh "F" in
             pose proof (generator_rows E C p m x w) as F; rewrite H in F; cbn [fst] in F
      end
  | H : forward ?E D ?p ?m ?x ?w = (?a, _) |- _ =>
      lazymatch goal with
      | _ : (length x <= length (flatten a))%nat |- _ => fail
      | _ => let F := fresh "F" in
             pose proof (discriminator_scores E C p m x w) as F; rewrite H in F; cbn [fst] in F
      end
  end.

Lemma shape_rows (x : Q) (n : nat) : shape (repeat [x] n) = repeat 1%nat n.
Proof.
  unfold shape. induction n as [|n IH]; [reflexivity|]. cbn [repeat map length].
  rewrite IH. reflexivity.
Qed.

Lemma shape_app (a b : Tensor) : shape (a ++ b) = shape a ++ shape b.
Proof. apply map_app. Qed.

Lemma shape_scores (t : Tensor) (n : nat) :
  shape t = repeat 1%nat n -> length (flatten t) = n.
Proof.
  unfold shape, flatten. revert n. induction t as [|row t IH]; intros [|n] H;
    cbn in H; try discriminate; [reflexivity|].
  injection H as Hrow Ht. cbn [concat]. rewrite length_app, Hrow, (IH n Ht). reflexivity.
Qed.

Lemma toy_scoring (policy : Stats -> Role) : Scoring (toy policy).
Proof.
  constructor; cbn.
  - intros _ _ x _. unfold shape. induction x as [|row x IH]; [reflexivity|].
    cbn [map length repeat]. rewrite IH. reflexivity.
  - intros tt pred y w _. eexists. reflexivity.
Qed.

Lemma train_step_total (E : Env) (C : Contracts E) (S : Scoring E) (n_batch : nat)
    (all_dists : list Q) (s : Trainer E) :
  exists r s', train_step n_batch all_dists s = (Ok r, s').
Proof.
  destruct (train_step n_batch all_dists s) as [res s'] eqn:H.
  destruct (train_step_pipeline E n_batch all_dists res s s' H)
    as (dis_in & y & Hb & Hy & Hrest).
  cbv zeta in Hb, Hrest.
  assert (Hrows : length dis_in = n_batch /\ shape y = repeat 1%nat n_batch).
  { clear Hrest H. rewrite Hy. clear Hy. revert Hb.
    destruct (fst (totrain_next E (stats s) (world s))); unfold_methods; run;
      unfold ret; cbn [fst]; intros Hb; injection Hb as <-; use_contracts C.
    - split; [lia|apply shape_rows].
    - split.
      + rewrite length_app. pose proof (halves n_batch). lia.
      + rewrite shape_app, !shape_rows, <- repeat_app, halves. reflexivity. }
  destruct Hrows as [Hlen Hshape].
  match type of Hrest with
  | match fst (loss_functions _ _ (fst ?fw) _ _) with _ => _ end =>
      pose proof (critic_shape E S (params s D)
                    (match fst (totrain_next E (stats s) (world s)) with
                     | G => Inference
                     | D => mode s D
                     end) dis_in
                    (world (snd (in_functions (fst (totrain_next E (stats s) (world s)))
                                   n_batch
                                   (set_world (snd (totrain_next E (stats s) (world s))) s)))))
        as Hcs
  end.
  rewrite Hlen in Hcs.
  match type of Hrest with
  | match fst (loss_functions ?E0 ?tt ?pred ?lab ?w) with _ => _ end =>
      destruct (loss_returns E S tt pred lab w) as [q Hq];
        [rewrite Hcs, Hshape; reflexivity|]; rewrite Hq in Hrest
  end.
  match type of Hrest with
  | match confusion ?t ?ys ?ps with _ => _ end =>
      destruct (confusion_total t ys ps) as [c Hc];
        [rewrite (shape_scores _ _ Hcs), (shape_scores _ _ Hshape); lia|];
        rewrite Hc in Hrest
  end.
  destruct Hrest as [[r Hr] _]. subst res. exists r, s'. reflexivity.
Qed.

Lemma train_step_dists (E : Env) (n_batch : nat) (all_dists r : list Q) (s s' : Trainer E) :
  train_step n_batch all_dists s = (Ok r, s') ->
  exists w : World E,
    let lat := latent_space E 256 None w in
    let gen := forward E G (params s' G) Inference (fst lat) (snd lat) in
    let real := dataset E 256 None (snd gen) in
    r = all_dists ++ [mean (all_Wasserstein_dists E (fst gen) (fst real))].
Proof.
  run_step; intros H; try discriminate H; injection H as <- <-; fields;
    match goal with
    | H : latent_space _ 256 None ?w = _ |- _ => exists w; cbv zeta; rewrite H; cbn [fst snd]
    end;
    match goal with
    | H : forward _ G _ Inference _ _ = _ |- _ => rewrite H; cbn [fst snd]
    end;
    match goal with
    | H : dataset _ 256 None _ = _ |- _ => rewrite H; reflexivity
    end.
Qed.

Lemma train_loop_length (E : Env) (n_batch : nat) :
  forall (n : nat) (acc r : list Q) (s s' : Trainer E),
    train_loop n n_batch acc s = (Ok r, s') ->
    length r = (length acc + n)%nat.
Proof.
  induction n as [|n IH]; intros acc r s s' H.
  - injection H as <- _. lia.
  - apply train_loop_succ in H. destruct H as (acc1 & s1 & Hstep & Hrest).
    apply IH in Hrest. apply train_step_dists in Hstep. destruct Hstep as [w Hw].
    cbv zeta in Hw. rewrite Hw, length_app in Hrest. cbn [length] in Hrest. lia.
Qed.

Lemma train_loop_total (E : Env) (C : Contracts E) (S : Scoring E) (n_batch : nat) :
  forall (n : nat) (acc : list Q) (s : Trainer E),
    exists r s', train_loop n n_batch acc s = (Ok r, s').
Proof.
  induction n as [|n IH]; intros acc s.
  - exists acc, s. reflexivity.
  - destruct (train_step_total E C S n_batch acc s) as (acc1 & s1 & Hstep).
    destruct (IH acc1 s1) as (r & s' & Hrest).
    exists r, s'. cbn [train_loop]. unfold bind at 1. rewrite Hstep. exact Hrest.
Qed.

Lemma train_loop_S (E : Env) (n n_batch : nat) (acc : list Q) :
  train_loop (E := E) (S n) n_batch acc =
  bind (train_step n_batch acc) (fun a => train_loop n n_batch a).
Proof. reflexivity. Qed.

Lemma bind_ext {E : Env} {A B : Type} (m : M E A) (k1 k2 : A -> M E B) (s : Trainer E) :
  (forall a s1, k1 a s1 = k2 a s1) -> bind m k1 s = bind m k2 s.
Proof.
  intros H. unfold bind. destruct (m s) as [[a|] s1]; [apply H|reflexivity].
Qed.

(** The loop, unrolled from its last iteration. *)
Lemma train_loop_last (E : Env) (n_batch : nat) :
  forall (n : nat) (acc : list Q) (s : Trainer E),
    train_loop (S n) n_batch acc s =
    bind (train_loop n n_batch acc) (train_step n_batch) s.
Proof.
  induction n as [|n IH]; intros acc s.
  - cbn [train_loop]. unfold bind, ret.
    destruct (train_step n_batch acc s) as [[a|] s1]; reflexivity.
  - rewrite (train_loop_S E (S n)). rewrite (train_loop_S E n n_batch acc).
    rewrite bind_bind. apply bind_ext. intros a s1. apply IH.
Qed.

Lemma mean_times_length (l : list Q) :
  l <> [] -> mean l * inject_Z (Z.of_nat (length l)) == fold_right Qplus 0 l.
Proof.
  intros Hl. unfold mean. rewrite Qmult_comm. apply Qmult_div_r.
  destruct l as [|x l]; [contradiction|]. cbn [length].
  intros H. unfold Qeq in H. cbn in H. lia.
Qed.

(** C3: every iteration that completes, whichever role it trained, draws 256
    latent points and 256 dataset rows, evaluates the generator on the
    former, and appends the mean of their pairwise Wasserstein distances (the
    sum of the distances over their number) to [all_dists].  The history
    [train] ends with is built that way, one iteration after the other from
    the empty list: a run of [n_epochs + 1] iterations is a run of [n_epochs]
    iterations followed by one iteration that appends its mean to the history
    so far.  So a run of [n_epochs] iterations returns [n_epochs] distances,
    and the run does return when the collaborators honour their contracts, the
    critic returns one score per row and the loss functions return on
    predictions shaped like their labels: seven distances after
    [train(7, 16)]. *)
Theorem distance_history_one_per_step (E : Env) :
  (forall (n_batch : nat) (all_dists r : list Q) (s s' : Trainer E),
     train_step n_batch all_dists s = (Ok r, s') ->
     exists w : World E,
       let lat := latent_space E 256 None w in
       let gen := forward E G (params s' G) Inference (fst lat) (snd lat) in
       let real := dataset E 256 None (snd gen) in
       r = all_dists ++ [mean (all_Wasserstein_dists E (fst gen) (fst real))]) /\
  (forall l : list Q,
     l <> [] -> mean l * inject_Z (Z.of_nat (length l)) == fold_right Qplus 0 l) /\
  (forall (n_batch : nat) (s : Trainer E), train 0 n_batch s = (Ok [], s)) /\
  (forall (n_epochs n_batch : nat) (r : list Q) (s s' : Trainer E),
     train (S n_epochs) n_batch s = (Ok r, s') ->
     exists (r1 : list Q) (s1 : Trainer E) (w : World E),
       train n_epochs n_batch s = (Ok r1, s1) /\
       train_step n_batch r1 s1 = (Ok r, s') /\
       length r1 = n_epochs /\
       let lat := latent_space E 256 None w in
       let gen := forward E G (params s' G) Inference (fst lat) (snd lat) in
       let real := dataset E 256 None (snd gen) in
       r = r1 ++ [mean (all_Wasserstein_dists E (fst gen) (fst real))]) /\
  (forall (n_epochs n_batch : nat) (r : list Q) (s s' : Trainer E),
     train n_epochs n_batch s = (Ok r, s') -> length r = n_epochs) /\
  (Contracts E -> Scoring E ->
   forall (n_epochs n_batch : nat) (s : Trainer E),
     exists r s', train n_epochs n_batch s = (Ok r, s') /\ length r = n_epochs) /\
  (Contracts E -> Scoring E ->
   forall s : Trainer E,
     exists r s', train 7 16 s = (Ok r, s') /\ length r = 7%nat).
Proof.
  assert (Hlen : forall (n_epochs n_batch : nat) (r : list Q) (s s' : Trainer E),
             train n_epochs n_batch s = (Ok r, s') -> length r = n_epochs).
  { intros n_epochs n_batch r s s' H. apply train_loop_length in H. exact H. }
  assert (Htot : Contracts E -> Scoring E ->
                 forall (n_epochs n_batch : nat) (s : Trainer E),
                   exists r s', train n_epochs n_batch s = (Ok r, s') /\ length r = n_epochs).
  { intros C S n_epochs n_batch s.
    destruct (train_loop_total E C S n_batch n_epochs [] s) as (r & s' & H).
    exists r, s'. split; [exact H|]. exact (Hlen _ _ _ _ _ H). }
  split; [|split; [|split; [|split; [|split; [exact Hlen|split; [exact Htot|]]]]]].
  - intros n_batch all_dists r s s' H. exact (train_step_dists E n_batch all_dists r s s' H).
  - intros l Hl. apply mean_times_length. exact Hl.
  - intros n_batch s. reflexivity.
  - intros n_epochs n_batch r s s' H. unfold train in H.
    rewrite train_loop_last in H. unfold bind in H.
    destruct (train_loop n_epochs n_batch [] s) as [[r1|] s1] eqn:H1; [|discriminate H].
    destruct (train_step_dists E n_batch r1 r s1 s' H) as [w Hw].
    exists r1, s1, w. split; [exact H1|]. split; [exact H|].
    split; [exact (Hlen _ _ _ _ _ H1)|exact Hw].
  - intros C S s. exact (Htot C S 7%nat 16%nat s).
Qed.

(** [distance_history_one_per_step] on the scenario of the test script:
    seven iterations at batch size 16. *)
Lemma distance_history_one_per_step_witness :
  Contracts (toy alternate) /\ Scoring (toy alternate) /\
  exists r s',
    train 7 16 (toy_init alternate all_training) = (Ok r, s') /\ length r = 7%nat.
Proof.
  split; [apply toy_contracts|]. split; [apply toy_scoring|].
  exact (proj2 (proj2 (proj2 (proj2 (proj2 (proj2
           (distance_history_one_per_step (toy alternate)))))))
           (toy_contracts alternate) (toy_scoring alternate)
           (toy_init alternate all_training)).
Defined.

(** ** The three rate ledgers *)


(** What an iteration does to the rate ledgers, whatever its outcome: the
    batch comes from the scheduled role's input function, the prediction from
    the discriminator, and, if the loss call returns, the loop of lines 66-76
    runs on the two. *)
Lemma train_step_rates (E : Env) (n_batch : nat) (all_dists : list Q)
    (res : Result (list Q)) (s s' : Trainer E) :
  train_step n_batch all_dists s = (res, s') ->
  let pol := totrain_next E (stats s) (world s) in
  exists (dis_in y mod_pred : Tensor) (outcome : Result Q),
    fst (in_functions (fst pol) n_batch (set_world (snd pol) s)) = Ok (dis_in, y) /\
    y = match fst pol with
        | G => repeat [1] n_batch
        | D => repeat [0] (ceil_half n_batch) ++ repeat [1] (floor_half n_batch)
        end /\
    (exists w, mod_pred =
               fst (forward E D (params s D)
                      (match fst pol with G => Inference | D => mode s D end) dis_in w)) /\
    (exists w, outcome = fst (loss_functions E (fst pol) mod_pred y w)) /\
    match outcome with
    | IndexError =>
        res = IndexError /\
        d_fpr (stats s') = d_fpr (stats s) /\
        d_precision (stats s') = d_precision (stats s) /\
        d_recall (stats s') = d_recall (stats s)
    | Ok _ =>
        match confusion (d_thresh s) (flatten y) (flatten mod_pred) with
        | Ok c =>
            (exists r, res = Ok r) /\
            d_fpr (stats s') = d_fpr (stats s) ++ fpr_entry c /\
            d_precision (stats s') = d_precision (stats s) ++ precision_entry c /\
            d_recall (stats s') = d_recall (stats s) ++ recall_entry c
        | IndexError =>
            res = IndexError /\
            d_fpr (stats s') = d_fpr (stats s) /\
            d_precision (stats s') = d_precision (stats s) /\
            d_recall (stats s') = d_recall (stats s)
        end
    end.
Proof.
  intros H. cbv zeta.
  destruct (train_step_pipeline E n_batch all_dists res s s' H)
    as (dis_in & y & Hb & Hy & Hrest).
  cbv zeta in Hb, Hrest.
  match type of Hrest with
  | match fst (loss_functions _ _ (fst ?fw) _ ?w) with _ => _ end =>
      exists dis_in, y, (fst fw),
        (fst (loss_functions E (fst (totrain_next E (stats s) (world s))) (fst fw) y w))
  end.
  split; [exact Hb|]. split; [exact Hy|]. split; [eexists; reflexivity|].
  split; [eexists; reflexivity|].
  destruct (fst (loss_functions _ _ _ _ _)) as [loss|].
  - destruct (confusion _ _ _) as [c|]; destruct Hrest as (Hres & Hs); rewrite Hs;
      (split; [exact Hres|]); cbn; repeat split.
  - destruct Hrest as (Hres & Hs). rewrite Hs. repeat split. exact Hres.
Qed.

Lemma count_ext_in {A : Type} (f g : A -> bool) (l : list A) :
  Forall (fun a => f a = g a) l -> count f l = count g l.
Proof.
  induction 1 as [|a l Ha _ IH]; [reflexivity|].
  rewrite !count_cons, Ha, IH. reflexivity.
Qed.

Lemma zero_label_counts (thresh : Q) (ys pred : list Q) (c : Counts) :
  Forall (fun y => y == 0) ys ->
  confusion thresh ys pred = Ok c ->
  tP c = 0%nat /\ fN c = 0%nat /\
  fP c = count (fun yp => Qgtb (snd yp) thresh) (combine ys pred) /\
  (fP c + tN c)%nat = length ys.
Proof.
  intros Hz H.
  assert (Hlen : forall c0 i, confusion_from thresh pred i ys c0 = Ok c ->
            (fP c + fN c + tP c + tN c = fP c0 + fN c0 + tP c0 + tN c0 + length ys)%nat).
  { clear. induction ys as [|y ys IH]; intros c0 i H; simpl in H.
    - injection H as <-. simpl. lia.
    - destruct (nth_error pred i) as [p|]; [|discriminate].
      apply IH in H. rewrite H. unfold count_one.
      destruct (Qeq_bool y 0), (Qgtb p thresh); cbn; lia. }
  pose proof (Hlen _ _ H) as Hsum. cbn in Hsum.
  apply confusion_counts in H. destruct H as (H1 & H2 & H3 & H4 & _).
  assert (Hp : Forall (fun yp : Q * Q => Qeq_bool (fst yp) 0 = true) (combine ys pred)).
  { apply (Forall_combine_fst (fun y => Qeq_bool y 0 = true)).
    eapply Forall_impl; [|exact Hz]. intros y Hy. apply Qeq_bool_iff. exact Hy. }
  assert (HtP : tP c = 0%nat).
  { rewrite H3. apply count_none. eapply Forall_impl; [|exact Hp].
    intros yp Hyp. unfold is_tP. rewrite Hyp. reflexivity. }
  assert (HfN : fN c = 0%nat).
  { rewrite H2. apply count_none. eapply Forall_impl; [|exact Hp].
    intros yp Hyp. unfold is_fN. rewrite Hyp. reflexivity. }
  repeat split; try assumption.
  - rewrite H1. apply count_ext_in. eapply Forall_impl; [|exact Hp].
    intros yp Hyp. unfold is_fP. rewrite Hyp. reflexivity.
  - lia.
Qed.


Lemma entries_guarded (c : Counts) :
  fpr_entry c = guarded (fP c) (fP c + tN c) /\
  precision_entry c = guarded (tP c) (tP c + fP c) /\
  recall_entry c = guarded (tP c) (tP c + fN c).
Proof.
  unfold fpr_entry, precision_entry, recall_entry, guarded.
  destruct (fP c + tN c)%nat, (tP c + fP c)%nat, (tP c + fN c)%nat; repeat split; reflexivity.
Qed.

Lemma count_none_over (thresh : Q) (ys pred : list Q) :
  (length ys <= length pred)%nat ->
  count (fun yp : Q * Q => Qgtb (snd yp) thresh) (combine ys pred) = 0%nat <->
  Forall (fun p => Qgtb p thresh = false) (firstn (length ys) pred).
Proof.
  revert pred. induction ys as [|y ys IH]; intros pred Hle.
  - cbn. split; [constructor|reflexivity].
  - destruct pred as [|p pred]; [cbn in Hle; lia|].
    cbn [combine length firstn]. rewrite count_cons. cbn [snd].
    cbn [length] in Hle. specialize (IH pred ltac:(lia)).
    destruct (Qgtb p thresh) eqn:Hp.
    + split; [intros H; discriminate H|].
      intros H. inversion H as [|? ? Hp' _]. congruence.
    + cbn [Nat.add]. rewrite IH. split.
      * intros H. constructor; assumption.
      * intros H. inversion H. assumption.
Qed.

(** C5, as the code has it: an iteration that completes runs the confusion
    loop on the labels of its batch and on the discriminator's prediction for
    that batch, and extends each of the three rate sequences by one value
    when that rate's denominator is nonzero and leaves it alone when the
    denominator is zero.  When every label of the batch is zero, nothing is
    appended to recall; false-positive rate gets an entry as soon as the
    batch is not empty; and precision, whose denominator is tP + fP, gets the
    entry 0 / fP exactly when some prediction of the batch lies above the
    threshold. *)
Theorem rates_guarded_by_denominators (E : Env) (n_batch : nat) (all_dists r : list Q)
    (s s' : Trainer E) :
  train_step n_batch all_dists s = (Ok r, s') ->
  let pol := totrain_next E (stats s) (world s) in
  let batch := in_functions (fst pol) n_batch (set_world (snd pol) s) in
  exists (dis_in y mod_pred : Tensor) (c : Counts),
    fst batch = Ok (dis_in, y) /\
    mod_pred = fst (forward E D (params s D)
                      (match fst pol with G => Inference | D => mode s D end)
                      dis_in (world (snd batch))) /\
    confusion (d_thresh s) (flatten y) (flatten mod_pred) = Ok c /\
    d_fpr (stats s') = d_fpr (stats s) ++ guarded (fP c) (fP c + tN c) /\
    d_precision (stats s') = d_precision (stats s) ++ guarded (tP c) (tP c + fP c) /\
    d_recall (stats s') = d_recall (stats s) ++ guarded (tP c) (tP c + fN c) /\
    (Forall (fun l => l == 0) (flatten y) ->
     d_recall (stats s') = d_recall (stats s) /\
     d_fpr (stats s') = d_fpr (stats s) ++ guarded (fP c) (length (flatten y)) /\
     d_precision (stats s') = d_precision (stats s) ++ guarded 0 (fP c) /\
     fP c = count (fun yp => Qgtb (snd yp) (d_thresh s))
              (combine (flatten y) (flatten mod_pred)) /\
     ((fP c = 0)%nat <->
      Forall (fun p => Qgtb p (d_thresh s) = false)
        (firstn (length (flatten y)) (flatten mod_pred)))).
Proof.
  intros H. cbv zeta.
  destruct (train_step_completed E n_batch all_dists r s s' H)
    as (dis_in & y & loss & c & Hb & _ & _ & Hconf & Hs).
  cbv zeta in Hb, Hconf.
  match type of Hconf with
  | confusion _ _ (flatten ?mp) = _ => exists dis_in, y, mp, c
  end.
  split; [exact Hb|]. split; [reflexivity|]. split; [exact Hconf|].
  destruct (entries_guarded c) as (Ef & Ep & Er).
  assert (Hf : d_fpr (stats s') = d_fpr (stats s) ++ guarded (fP c) (fP c + tN c))
    by (rewrite Hs, <- Ef; reflexivity).
  assert (Hp : d_precision (stats s') =
               d_precision (stats s) ++ guarded (tP c) (tP c + fP c))
    by (rewrite Hs, <- Ep; reflexivity).
  assert (Hr : d_recall (stats s') = d_recall (stats s) ++ guarded (tP c) (tP c + fN c))
    by (rewrite Hs, <- Er; reflexivity).
  split; [exact Hf|]. split; [exact Hp|]. split; [exact Hr|].
  intros Hz.
  destruct (zero_label_counts _ _ _ _ Hz Hconf) as (HtP & HfN & HfP & Hn).
  split; [|split; [|split; [|split]]].
  - rewrite Hr, HtP, HfN. cbn. apply app_nil_r.
  - rewrite Hf, Hn. reflexivity.
  - rewrite Hp, HtP. reflexivity.
  - exact HfP.
  - rewrite HfP. apply confusion_counts in Hconf.
    destruct Hconf as (_ & _ & _ & _ & Hle). apply count_none_over; exact Hle.
Qed.

(** [rates_guarded_by_denominators] on the concrete instance at batch size
    1: a critic step whose only label is 0 and whose only score is above the
    threshold. *)
Lemma rates_guarded_by_denominators_witness :
  let s := toy_init alternate all_training in
  let out := train_step 1 [] s in
  out = (Ok (value [] (fst out)), snd out) /\
  exists c : Counts,
    fP c = 1%nat /\
    d_precision (stats (snd out)) = d_precision (stats s) ++ guarded 0 (fP c) /\
    d_recall (stats (snd out)) = d_recall (stats s).
Proof.
  cbv zeta.
  assert (Hr : train_step 1 [] (toy_init alternate all_training) =
               (Ok (value [] (fst (train_step 1 [] (toy_init alternate all_training)))),
                snd (train_step 1 [] (toy_init alternate all_training))))
    by (vm_compute; reflexivity).
  split; [exact Hr|].
  destruct (rates_guarded_by_denominators (toy alternate) 1 [] _ _ _ Hr)
    as (dis_in & y & mod_pred & c & Hb & Hm & Hc & _ & _ & _ & Hz).
  cbv zeta in Hb, Hm.
  assert (Hb' : Ok ([[0]], [[0]]) = Ok (dis_in, y)) by exact Hb.
  injection Hb' as <- <-.
  assert (Hm' : mod_pred = [[0 + 1]]) by exact Hm. subst mod_pred.
  assert (Hc' : Ok (mkCounts 1 0 0 0) = Ok c) by exact Hc. injection Hc' as <-.
  exists (mkCounts 1 0 0 0). split; [reflexivity|].
  assert (Hzero : Forall (fun l => l == 0) (flatten [[0]]))
    by (repeat constructor; reflexivity).
  destruct (Hz Hzero) as (Hrec & _ & Hprec & _).
  split; [exact Hprec|exact Hrec].
Defined.

(** C5, as stated, fails: the first iteration of the concrete instance at
    batch size 1 trains the critic on a batch whose only label is 0; the
    critic scores the row above the threshold, which makes it a false
    positive, and the iteration appends 0 to the precision sequence. *)
Lemma all_zero_labels_append_precision :
  let s := toy_init alternate all_training in
  let out := train_step 1 [] s in
  fst (totrain_next (toy alternate) (stats s) (world s)) = D /\
  fst (discriminator_input 1 s) = Ok ([[0]], [[0]]) /\
  (exists r, fst out = Ok r) /\
  d_precision (stats s) = [] /\
  d_precision (stats (snd out)) = [ratio 0 1] /\
  d_recall (stats (snd out)) = [].
Proof.
  cbv zeta. repeat split; try reflexivity.
  eexists. vm_compute. reflexivity.
Qed.



(** ** Modes of the two models *)

Lemma train_step_trace (E : Env) (n_batch : nat) (all_dists r : list Q) (s s' : Trainer E) :
  train_step n_batch all_dists s = (Ok r, s') ->
  trace s' = trace s ++
             step_events (fst (totrain_next E (stats s) (world s))) (mode s G) (mode s D).
Proof.
  run_step; intros H; try discriminate H; injection H as _ <-; fields;
    repeat rewrite <- app_assoc; reflexivity.
Qed.

(** C6: on an iteration that trains the generator, the discriminator is put
    in inference mode right before its forward pass, runs it in that mode and
    is put back in training mode right after, nothing else of the iteration
    touches it, and the backward pass comes later; on an iteration that
    trains the discriminator, the discriminator is never put in inference
    mode: its forward pass runs in the mode it had on entry. *)
Theorem discriminator_frozen_only_for_forward (E : Env) (n_batch : nat)
    (all_dists r : list Q) (s s' : Trainer E) :
  train_step n_batch all_dists s = (Ok r, s') ->
  exists evs : list Event,
    trace s' = trace s ++ evs /\
    match fst (totrain_next E (stats s) (world s)) with
    | G =>
        exists pre post,
          evs = pre ++ [SetMode D Inference; Forward D Inference; SetMode D Training] ++ post /\
          forallb (fun e => negb (touches D e)) (pre ++ post) = true /\
          In Backward post
    | D =>
        ~ In (SetMode D Inference) evs /\
        exists pre post,
          evs = pre ++ [Forward D (mode s D); SetMode D Training] ++ post /\
          forallb (fun e => negb (touches D e)) (pre ++ post) = true /\
          In Backward post
    end.
Proof.
  intros H. apply train_step_trace in H.
  exists (step_events (fst (totrain_next E (stats s) (world s))) (mode s G) (mode s D)).
  split; [exact H|].
  destruct (fst (totrain_next E (stats s) (world s))); cbn [step_events].
  - exists [Forward G (mode s G)].
    exists [ZeroGrad G; Backward; OptStep G;
            SetMode G Inference; Forward G Inference; SetMode G (mode s G)].
    split; [reflexivity|]. split; [reflexivity|]. cbn. tauto.
  - split.
    + cbn. intros Hin.
      repeat match type of Hin with
             | _ \/ _ => destruct Hin as [Hin|Hin]; [discriminate Hin|]
             end.
      exact Hin.
    + exists [SetMode G Inference; Forward G Inference; SetMode G Training].
      exists [ZeroGrad D; Backward; OptStep D; Clamp;
              SetMode G Inference; Forward G Inference; SetMode G Training].
      split; [reflexivity|]. split; [reflexivity|]. cbn. tauto.
Qed.

(** [discriminator_frozen_only_for_forward] on a generator step of the
    concrete instance. *)
Lemma discriminator_frozen_only_for_forward_witness :
  let s := toy_init (always G) all_training in
  let out := train_step 4 [] s in
  out = (Ok (value [] (fst out)), snd out) /\
  exists evs : list Event,
    trace (snd out) = trace s ++ evs /\
    exists pre post,
      evs = pre ++ [SetMode D Inference; Forward D Inference; SetMode D Training] ++ post /\
      forallb (fun e => negb (touches D e)) (pre ++ post) = true /\
      In Backward post.
Proof.
  cbv zeta.
  assert (Hr : train_step 4 [] (toy_init (always G) all_training) =
               (Ok (value [] (fst (train_step 4 [] (toy_init (always G) all_training)))),
                snd (train_step 4 [] (toy_init (always G) all_training))))
    by (vm_compute; reflexivity).
  split; [exact Hr|].
  exact (discriminator_frozen_only_for_forward (toy (always G)) 4 [] _ _ _ Hr).
Defined.

(** ** The binary rows of the test dataset *)

Lemma list_ascii_of_append (a b : String.string) :
  String.list_ascii_of_string (String.append a b) =
  String.list_ascii_of_string a ++ String.list_ascii_of_string b.
Proof.
  induction a as [|c a IH]; [reflexivity|]. cbn. rewrite IH. reflexivity.
Qed.

Lemma comprehension_app {A B : Type} (f : A -> option B) (xs xs' : list A) (ys ys' : list B) :
  comprehension f xs = Some ys ->
  comprehension f xs' = Some ys' ->
  comprehension f (xs ++ xs') = Some (ys ++ ys').
Proof.
  revert ys. induction xs as [|x xs IH]; intros ys H H'; cbn in *.
  - injection H as <-. exact H'.
  - destruct (f x) as [y|]; [|discriminate].
    destruct (comprehension f xs) as [zs|]; [|discriminate].
    injection H as <-. rewrite (IH zs eq_refl H'). reflexivity.
Qed.

Lemma comprehension_length {A B : Type} (f : A -> option B) (xs : list A) (ys : list B) :
  comprehension f xs = Some ys -> length ys = length xs.
Proof.
  revert ys. induction xs as [|x xs IH]; intros ys H; cbn in *.
  - injection H as <-. reflexivity.
  - destruct (f x) as [y|]; [|discriminate].
    destruct (comprehension f xs) as [zs|]; [|discriminate].
    injection H as <-. cbn. rewrite (IH zs eq_refl). reflexivity.
Qed.

Lemma spelled_snoc (ds : list Z) (d : Z) : spelled (ds ++ [d]) = (2 * spelled ds + d)%Z.
Proof. unfold spelled. rewrite fold_left_app. reflexivity. Qed.

(** The digits of a positive number, read back. *)
Lemma bin_digits_read (p : positive) :
  exists ds : list Z,
    comprehension int_of_char (bin_digits p) = Some ds /\
    spelled ds = Zpos p /\
    Forall is_bit ds /\
    hd 0%Z ds = 1%Z /\
    length ds = Pos.size_nat p /\
    last ds 1%Z = (Zpos p mod 2)%Z.
Proof.
  induction p as [q IH|q IH|].
  - destruct IH as (ds & Hc & Hs & Hb & Hh & Hl & _).
    exists (ds ++ [1%Z]). split; [|split; [|split; [|split; [|split]]]].
    + cbn [bin_digits]. apply comprehension_app; [exact Hc|reflexivity].
    + rewrite spelled_snoc, Hs. reflexivity.
    + apply Forall_app. split; [exact Hb|]. constructor; [right; reflexivity|constructor].
    + destruct ds as [|d ds]; [cbn in Hh; discriminate Hh|exact Hh].
    + rewrite length_app, Hl. cbn. lia.
    + rewrite last_last. rewrite Pos2Z.inj_xI, Z.add_comm, Z.mul_comm, Z.mod_add by lia.
      reflexivity.
  - destruct IH as (ds & Hc & Hs & Hb & Hh & Hl & _).
    exists (ds ++ [0%Z]). split; [|split; [|split; [|split; [|split]]]].
    + cbn [bin_digits]. apply comprehension_app; [exact Hc|reflexivity].
    + rewrite spelled_snoc, Hs. lia.
    + apply Forall_app. split; [exact Hb|]. constructor; [left; reflexivity|constructor].
    + destruct ds as [|d ds]; [cbn in Hh; discriminate Hh|exact Hh].
    + rewrite length_app, Hl. cbn. lia.
    + rewrite last_last. rewrite Pos2Z.inj_xO, Z.mul_comm, Z.mod_mul by lia. reflexivity.
  - exists [1%Z]. repeat split; try reflexivity.
    constructor; [right; reflexivity|constructor].
Qed.

Lemma list_from_num_pos (p : positive) :
  list_from_num (Zpos p) = comprehension int_of_char (bin_digits p).
Proof.
  unfold list_from_num, bin. rewrite list_ascii_of_append.
  rewrite String.list_ascii_of_string_of_list_ascii. reflexivity.
Qed.

Lemma size_nat_size (q : positive) : Z.of_nat (Pos.size_nat q) = Zpos (Pos.size q).
Proof.
  induction q as [q IH|q IH|]; cbn [Pos.size_nat Pos.size];
    try rewrite Nat2Z.inj_succ, IH; try rewrite Pos2Z.inj_succ; reflexivity.
Qed.

Lemma size_nat_log2 (p : positive) : Z.of_nat (Pos.size_nat p) = (Z.log2 (Zpos p) + 1)%Z.
Proof.
  destruct p as [q|q|]; cbn [Pos.size_nat Z.log2]; try reflexivity;
    rewrite Nat2Z.inj_succ, size_nat_size; lia.
Qed.

(** X1: on a number that is not negative, [list_from_num] returns its binary
    digits, most significant first: they are zeros and ones that spell the
    number back; zero gives the single digit 0, and a positive number gives
    [log2 num + 1] digits, the first of which is 1. *)
Theorem list_from_num_spells (num : Z) :
  (0 <= num)%Z ->
  exists ds : list Z,
    list_from_num num = Some ds /\
    spelled ds = num /\
    Forall is_bit ds /\
    (num = 0%Z -> ds = [0%Z]) /\
    ((0 < num)%Z -> hd 0%Z ds = 1%Z /\ Z.of_nat (length ds) = (Z.log2 num + 1)%Z).
Proof.
  intros Hnum. destruct num as [|p|p]; [| |lia].
  - exists [0%Z]. split; [reflexivity|]. split; [reflexivity|].
    split; [constructor; [left; reflexivity|constructor]|].
    split; [reflexivity|]. intros H. discriminate H.
  - destruct (bin_digits_read p) as (ds & Hc & Hs & Hb & Hh & Hl & _).
    exists ds. rewrite list_from_num_pos.
    split; [exact Hc|]. split; [exact Hs|]. split; [exact Hb|].
    split; [discriminate|]. intros _. split; [exact Hh|].
    rewrite Hl. apply size_nat_log2.
Qed.

(** [list_from_num_spells] at 6. *)
Lemma list_from_num_spells_witness :
  (0 <= 6)%Z /\
  exists ds : list Z, list_from_num 6 = Some ds /\ spelled ds = 6%Z /\ length ds = 3%nat.
Proof.
  assert (H : (0 <= 6)%Z) by lia. split; [exact H|].
  destruct (list_from_num_spells 6 H) as (ds & Hd & Hs & _ & _ & Hp).
  exists ds. split; [exact Hd|]. split; [exact Hs|].
  destruct (Hp ltac:(lia)) as [_ Hl]. change (Z.log2 6) with 2%Z in Hl. lia.
Defined.

(** X2: on a negative number [bin] prints a sign first, the slice [[2:]]
    starts at the letter b, and [int] raises [ValueError] on it. *)
Theorem list_from_num_negative (num : Z) :
  (num < 0)%Z -> list_from_num num = None.
Proof.
  intros Hnum. destruct num as [|p|p]; [lia|lia|].
  unfold list_from_num, bin. rewrite list_ascii_of_append. reflexivity.
Qed.

(** [list_from_num_negative] at -5. *)
Lemma list_from_num_negative_witness : (-5 < 0)%Z /\ list_from_num (-5) = None.
Proof.
  assert (H : (-5 < 0)%Z) by lia. split; [exact H|].
  exact (list_from_num_negative (-5) H).
Defined.

Lemma spelled_zeros (k : nat) (ds : list Z) : spelled (repeat 0%Z k ++ ds) = spelled ds.
Proof.
  unfold spelled. rewrite fold_left_app.
  replace (fold_left (fun acc d : Z => (2 * acc + d)%Z) (repeat 0%Z k) 0%Z) with 0%Z;
    [reflexivity|].
  induction k as [|k IH]; [reflexivity|]. cbn. exact IH.
Qed.

Lemma last_after {A : Type} (l ds : list A) (d : A) :
  ds <> [] -> last (l ++ ds) d = last ds d.
Proof.
  intros Hne. induction l as [|a l IH]; [reflexivity|].
  cbn [app last]. destruct (l ++ ds) eqn:Heq; [|exact IH].
  apply app_eq_nil in Heq. destruct Heq as [_ Heq]. contradiction.
Qed.

(** X3: the padding of line 31 never drops a digit: the padded row spells
    the same number, has [max_length] entries when the digits are at most
    that many, and is the digits themselves when they are more. *)
Theorem pad_keeps_number (ds : list Z) :
  spelled (pad ds) = spelled ds /\
  length (pad ds) = Nat.max max_length (length ds) /\
  ((max_length <= length ds)%nat -> pad ds = ds).
Proof.
  unfold pad. split; [apply spelled_zeros|]. split.
  - rewrite length_app, repeat_length. lia.
  - intros H. replace (max_length - length ds)%nat with 0%nat by lia. reflexivity.
Qed.

(** [pad_keeps_number] on eight digits. *)
Lemma pad_keeps_number_witness :
  (max_length <= length [1; 0; 0; 0; 0; 0; 0; 0]%Z)%nat /\
  pad [1; 0; 0; 0; 0; 0; 0; 0]%Z = [1; 0; 0; 0; 0; 0; 0; 0]%Z.
Proof.
  assert (H : (max_length <= length [1; 0; 0; 0; 0; 0; 0; 0]%Z)%nat)
    by (unfold max_length; cbn; lia).
  split; [exact H|].
  exact (proj2 (proj2 (pad_keeps_number [1; 0; 0; 0; 0; 0; 0; 0]%Z)) H).
Defined.

Lemma row_of_sample (x : Z) :
  (0 <= x < 64)%Z ->
  exists ds : list Z, list_from_num (x * 2) = Some ds /\ row_of x (pad ds).
Proof.
  intros Hx. destruct x as [|q|q]; [| |lia].
  - exists [0%Z]. split; [reflexivity|]. unfold row_of. cbn.
    repeat split; try reflexivity. repeat constructor.
  - change (Zpos q * 2)%Z with (Zpos (q * 2)). rewrite Pos.mul_comm.
    change (2 * q)%positive with (q~0)%positive.
    destruct (bin_digits_read (q~0)) as (ds & Hc & Hs & Hb & Hh & Hl & Hlast).
    exists ds. rewrite list_from_num_pos. split; [exact Hc|].
    assert (Hlen : (length ds <= 7)%nat).
    { rewrite Hl. apply (Zpower2_Psize 7). change (2 ^ Z.of_nat 7)%Z with 128%Z. lia. }
    assert (Hne : ds <> []).
    { intros ->. cbn in Hh. discriminate Hh. }
    destruct (pad_keeps_number ds) as (Hp1 & Hp2 & _).
    unfold row_of. split; [|split; [|split]].
    + rewrite Hp2. unfold max_length. lia.
    + rewrite Hp1, Hs. reflexivity.
    + unfold pad. apply Forall_app. split; [|exact Hb].
      apply Forall_repeat. left. reflexivity.
    + unfold pad. rewrite (last_after _ _ _ Hne), Hlast.
      rewrite Pos2Z.inj_xO, Z.mul_comm, Z.mod_mul by lia. reflexivity.
Qed.

Lemma rows_of_samples (sampled : list Z) :
  Forall (fun x => (0 <= x < 64)%Z) sampled ->
  exists data : list (list Z),
    comprehension (fun x => list_from_num (x * 2)) sampled = Some data /\
    Forall2 row_of sampled (map pad data).
Proof.
  induction 1 as [|x sampled Hx _ IH].
  - exists []. split; [reflexivity|constructor].
  - destruct IH as (data & Hc & Hrows).
    destruct (row_of_sample x Hx) as (ds & Hd & Hrow).
    exists (ds :: data). cbn [comprehension map]. rewrite Hd, Hc. split; [reflexivity|].
    constructor; assumption.
Qed.

(** X4: when every sampled integer is in the range [randint] draws from,
    [batch_from_data] returns one row per sample, and the row of the sample
    [x] is the 7-digit binary spelling of the even number [2 * x]: seven
    zeros and ones, the last of them 0. *)
Theorem batch_from_data_rows (sampled_integers : list Z) :
  Forall (fun x => (0 <= x < 64)%Z) sampled_integers ->
  exists rows : list (list Z),
    batch_from_data sampled_integers = Some (map (map inject_Z) rows) /\
    length rows = length sampled_integers /\
    Forall2 row_of sampled_integers rows.
Proof.
  intros H. destruct (rows_of_samples sampled_integers H) as (data & Hc & Hrows).
  exists (map pad data). unfold batch_from_data. rewrite Hc.
  split; [|split; [|exact Hrows]].
  - assert (Hlen : Forall (fun r => length r = 7%nat) (map pad data)).
    { clear Hc H. induction Hrows as [|x r sampled rows Hr _ IH]; constructor.
      - exact (proj1 Hr).
      - exact IH. }
    unfold tensor_of_rows. destruct (map pad data) as [|row rows]; [reflexivity|].
    inversion Hlen as [|? ? Hrow Hrest]; subst.
    replace (forallb (fun r => Nat.eqb (length r) (length row)) rows) with true;
      [reflexivity|].
    symmetry. apply forallb_forall. intros r Hr. rewrite Hrow.
    rewrite Forall_forall in Hrest. rewrite (Hrest r Hr). reflexivity.
  - symmetry. exact (Forall2_length Hrows).
Qed.

(** [batch_from_data_rows] on four samples. *)
Lemma batch_from_data_rows_witness :
  Forall (fun x => (0 <= x < 64)%Z) [0; 1; 63; 5]%Z /\
  exists rows : list (list Z),
    batch_from_data [0; 1; 63; 5]%Z = Some (map (map inject_Z) rows) /\
    length rows = 4%nat.
Proof.
  assert (H : Forall (fun x => (0 <= x < 64)%Z) [0; 1; 63; 5]%Z)
    by (repeat constructor; lia).
  split; [exact H|].
  destruct (batch_from_data_rows [0; 1; 63; 5]%Z H) as (rows & Hb & Hl & _).
  exists rows. split; [exact Hb|exact Hl].
Defined.

(** ** More on one iteration *)

Lemma train_step_params (E : Env) (n_batch : nat) (all_dists : list Q)
    (res : Result (list Q)) (s s' : Trainer E) :
  train_step n_batch all_dists s = (res, s') ->
  match res with
  | Ok _ =>
      match fst (totrain_next E (stats s) (world s)) with
      | G => params s' D = params s D /\
             exists w, params s' G = fst (opt_step E G (params s G) w)
      | D => params s' G = params s G /\
             exists w, params s' D = clamp_params (fst (opt_step E D (params s D) w))
      end
  | IndexError => forall r, params s' r = params s r
  end.
Proof.
  run_step; intros H; injection H as <- <-; fields; try (intros r; reflexivity);
    (split; [reflexivity|]); eexists;
    match goal with H : opt_step _ _ _ _ = _ |- _ => rewrite H end; reflexivity.
Qed.

Lemma train_step_ledger_any (E : Env) (n_batch : nat) (all_dists : list Q)
    (res : Result (list Q)) (s s' : Trainer E) :
  train_step n_batch all_dists s = (res, s') ->
  let tt := fst (totrain_next E (stats s) (world s)) in
  (res = IndexError /\
   forall role,
     losses (stats s') role = losses (stats s) role /\
     epochs_trained (stats s') role = epochs_trained (stats s) role) \/
  ((exists loss, losses (stats s') tt = losses (stats s) tt ++ [loss]) /\
   epochs_trained (stats s') tt = (epochs_trained (stats s) tt + 1)%nat /\
   losses (stats s') (other tt) = losses (stats s) (other tt) /\
   epochs_trained (stats s') (other tt) = epochs_trained (stats s) (other tt)).
Proof.
  intros H. cbv zeta.
  destruct (train_step_pipeline E n_batch all_dists res s s' H)
    as (dis_in & y & _ & _ & Hrest).
  cbv zeta in Hrest.
  destruct (fst (loss_functions _ _ _ _ _)) as [loss|].
  - right.
    assert (Hs : exists c, stats s' = log_rates c (log_loss
                   (fst (totrain_next E (stats s) (world s))) loss (stats s)) \/
                 stats s' = log_loss (fst (totrain_next E (stats s) (world s))) loss
                              (stats s)).
    { destruct (confusion _ _ _) as [c|]; destruct Hrest as [_ Hs].
      - exists c. left. exact Hs.
      - exists (mkCounts 0 0 0 0). right. exact Hs. }
    destruct Hs as [c [Hs|Hs]]; rewrite Hs;
      destruct (fst (totrain_next E (stats s) (world s))); cbn;
      repeat split; eexists; reflexivity.
  - left. destruct Hrest as [Hres Hs]. rewrite Hs. split; [exact Hres|].
    intros role. split; reflexivity.
Qed.

Lemma train_step_failure (E : Env) (n_batch : nat) (all_dists : list Q) (s s' : Trainer E) :
  train_step n_batch all_dists s = (IndexError, s') ->
  mode s' D = Training /\
  trace s' = trace s ++
             match fst (totrain_next E (stats s) (world s)) with
             | G => [Forward G (mode s G); SetMode D Inference; Forward D Inference;
                     SetMode D Training]
             | D => [SetMode G Inference; Forward G Inference; SetMode G Training;
                     Forward D (mode s D); SetMode D Training]
             end.
Proof.
  run_step; intros H; try discriminate H; injection H as <-; fields;
    (split; [reflexivity|]); repeat rewrite <- app_assoc; reflexivity.
Qed.

Lemma train_loop_cases (E : Env) (n n_batch : nat) (acc : list Q) (res : Result (list Q))
    (s s' : Trainer E) :
  train_loop (S n) n_batch acc s = (res, s') ->
  (res = IndexError /\ train_step n_batch acc s = (IndexError, s')) \/
  (exists acc1 s1,
     train_step n_batch acc s = (Ok acc1, s1) /\
     train_loop n n_batch acc1 s1 = (res, s')).
Proof.
  cbn [train_loop]. unfold bind at 1.
  destruct (train_step n_batch acc s) as [[acc1|] s1]; intros H.
  - right. eauto.
  - left. injection H as <- <-. split; reflexivity.
Qed.

(** A property of the trainer state that every iteration keeps is kept by
    the whole run, whether it completes or raises. *)
Lemma train_loop_invariant (E : Env) (P : Trainer E -> Prop) (n_batch : nat) :
  (forall acc res s s', train_step n_batch acc s = (res, s') -> P s -> P s') ->
  forall (n : nat) (acc : list Q) (res : Result (list Q)) (s s' : Trainer E),
    train_loop n n_batch acc s = (res, s') -> P s -> P s'.
Proof.
  intros Hstep. induction n as [|n IH]; intros acc res s s' H Hs.
  - injection H as _ <-. exact Hs.
  - apply train_loop_cases in H. destruct H as [[_ H]|(acc1 & s1 & H1 & H2)].
    + exact (Hstep _ _ _ _ H Hs).
    + exact (IH _ _ _ _ H2 (Hstep _ _ _ _ H1 Hs)).
Qed.

(** ** The clamp and the confusion loop on their own *)

(** X5: clamping the critic's parameters keeps the number and the sizes of
    the parameter tensors, returns parameters that are already within
    [-0.01, 0.01] unchanged, and so does nothing when done twice. *)
Theorem clamp_params_fixes_clamped (p : Params) :
  (Forall (Forall in_clamp_range) p -> clamp_params p = p) /\
  clamp_params (clamp_params p) = clamp_params p /\
  map (@length Q) (clamp_params p) = map (@length Q) p.
Proof.
  assert (Hfix : forall q : Params, Forall (Forall in_clamp_range) q -> clamp_params q = q).
  { intros q Hq. unfold clamp_params. induction Hq as [|t q Ht _ IH]; [reflexivity|].
    cbn [map]. rewrite IH. f_equal.
    induction Ht as [|x t Hx _ IHt]; [reflexivity|].
    cbn [map]. rewrite IHt, (clamp_fixes x Hx). reflexivity. }
  split; [exact (Hfix p)|]. split.
  - apply Hfix. apply clamp_params_in_range.
  - unfold clamp_params. rewrite map_map. apply map_ext. intros t. apply length_map.
Qed.

(** [clamp_params_fixes_clamped] on parameters within the range. *)
Lemma clamp_params_fixes_clamped_witness :
  Forall (Forall in_clamp_range) [[1 # 200; - (1 # 100)]; [0]] /\
  clamp_params [[1 # 200; - (1 # 100)]; [0]] = [[1 # 200; - (1 # 100)]; [0]].
Proof.
  assert (H : Forall (Forall in_clamp_range) [[1 # 200; - (1 # 100)]; [0]]).
  { repeat constructor; discriminate. }
  split; [exact H|].
  exact (proj1 (clamp_params_fixes_clamped [[1 # 200; - (1 # 100)]; [0]]) H).
Defined.

Lemma confusion_from_label_counts (thresh : Q) (pred : list Q) (ys : list Q) :
  forall (i : nat) (c0 c : Counts),
    confusion_from thresh pred i ys c0 = Ok c ->
    (fP c + tN c = fP c0 + tN c0 + count (fun y => Qeq_bool y 0) ys)%nat /\
    (tP c + fN c = tP c0 + fN c0 + count (fun y => negb (Qeq_bool y 0)) ys)%nat.
Proof.
  induction ys as [|y ys IH]; intros i c0 c H; simpl in H.
  - injection H as <-. unfold count. cbn. lia.
  - destruct (nth_error pred i) as [p|]; [|discriminate].
    apply IH in H. rewrite !count_cons. unfold count_one in H.
    destruct (Qeq_bool y 0), (Qgtb p thresh); cbn [fP fN tP tN negb] in *; lia.
Qed.

Lemma count_partition {A : Type} (f : A -> bool) (l : list A) :
  (count f l + count (fun a => negb (f a)) l = length l)%nat.
Proof.
  induction l as [|a l IH]; [reflexivity|].
  rewrite !count_cons. destruct (f a); cbn [negb length]; lia.
Qed.

(** X6: the confusion loop completes exactly when there are at least as many
    predictions as labels and raises [IndexError] otherwise; when it
    completes, every label is counted once: fP + tN is the number of zero
    labels, tP + fN the number of the others, and the four counters add up to
    the number of labels. *)
Theorem confusion_classifies_each_label (thresh : Q) (y_flat mod_pred_flat : list Q) :
  ((exists c, confusion thresh y_flat mod_pred_flat = Ok c) <->
   (length y_flat <= length mod_pred_flat)%nat) /\
  (confusion thresh y_flat mod_pred_flat = IndexError <->
   (length mod_pred_flat < length y_flat)%nat) /\
  (forall c,
     confusion thresh y_flat mod_pred_flat = Ok c ->
     (fP c + tN c)%nat = count (fun y => Qeq_bool y 0) y_flat /\
     (tP c + fN c)%nat = count (fun y => negb (Qeq_bool y 0)) y_flat /\
     (fP c + fN c + tP c + tN c)%nat = length y_flat).
Proof.
  assert (Hok : (exists c, confusion thresh y_flat mod_pred_flat = Ok c) <->
                (length y_flat <= length mod_pred_flat)%nat).
  { split.
    - intros [c Hc]. apply confusion_counts in Hc. exact (proj2 (proj2 (proj2 (proj2 Hc)))).
    - apply confusion_total. }
  split; [exact Hok|]. split.
  - split.
    + intros Herr. apply Nat.nle_gt. intros Hle.
      apply Hok in Hle. destruct Hle as [c Hc]. congruence.
    + intros Hlt. destruct (confusion thresh y_flat mod_pred_flat) as [c|] eqn:Hc;
        [|reflexivity].
      pose proof (proj1 Hok (ex_intro _ c eq_refl)) as Hle. lia.
  - intros c Hc. apply confusion_from_label_counts in Hc. cbn [fP fN tP tN] in Hc.
    destruct Hc as [H0 H1].
    pose proof (count_partition (fun y => Qeq_bool y 0) y_flat) as Hp.
    repeat split; lia.
Qed.

(** [confusion_classifies_each_label] on three labels and three scores. *)
Lemma confusion_classifies_each_label_witness :
  confusion (1 # 2) [0; 0; 1] [1; 0; 1] = Ok (mkCounts 1 0 1 1) /\
  (1 + 0 + 1 + 1)%nat = length [0; 0; 1].
Proof.
  assert (H : confusion (1 # 2) [0; 0; 1] [1; 0; 1] = Ok (mkCounts 1 0 1 1)) by reflexivity.
  split; [exact H|].
  exact (proj2 (proj2 (proj2 (proj2 (confusion_classifies_each_label
                                        (1 # 2) [0; 0; 1] [1; 0; 1])) _ H))).
Defined.

(** ** An iteration that raises *)

Lemma confusion_error_short (thresh : Q) (ys pred : list Q) :
  confusion thresh ys pred = IndexError -> (length pred < length ys)%nat.
Proof.
  intros H. apply Nat.nle_gt. intros Hle.
  destruct (confusion_total thresh ys pred Hle) as [c Hc]. congruence.
Qed.

(** X7: an iteration that raises [IndexError] has not run the optimizer:
    the parameters of both models and the three rate sequences are as they
    were, and the discriminator is back in training mode.  It raised in one
    of two places.  Either the loss function raised at line 54, and then
    nothing was logged: the statistics are as they were.  Or the loss
    function returned and the confusion loop raised, which happens only when
    the discriminator returned fewer scores than the batch has labels, and
    then the loss is already appended and the counter incremented. *)
Theorem failed_step_leaves_models_alone (E : Env) (n_batch : nat) (all_dists : list Q)
    (s s' : Trainer E) :
  train_step n_batch all_dists s = (IndexError, s') ->
  let pol := totrain_next E (stats s) (world s) in
  let tt := fst pol in
  let batch := in_functions tt n_batch (set_world (snd pol) s) in
  (exists dis_in y : Tensor,
     fst batch = Ok (dis_in, y) /\
     let fw := forward E D (params s D)
                 (match tt with G => Inference | D => mode s D end)
                 dis_in (world (snd batch)) in
     match fst (loss_functions E tt (fst fw) y (snd fw)) with
     | IndexError => stats s' = stats s
     | Ok loss =>
         (length (flatten (fst fw)) < length (flatten y))%nat /\
         losses (stats s') tt = losses (stats s) tt ++ [loss] /\
         epochs_trained (stats s') tt = (epochs_trained (stats s) tt + 1)%nat /\
         losses (stats s') (other tt) = losses (stats s) (other tt) /\
         epochs_trained (stats s') (other tt) = epochs_trained (stats s) (other tt)
     end) /\
  (forall r, params s' r = params s r) /\
  d_fpr (stats s') = d_fpr (stats s) /\
  d_precision (stats s') = d_precision (stats s) /\
  d_recall (stats s') = d_recall (stats s) /\
  mode s' D = Training /\
  trace s' = trace s ++
             match tt with
             | G => [Forward G (mode s G); SetMode D Inference; Forward D Inference;
                     SetMode D Training]
             | D => [SetMode G Inference; Forward G Inference; SetMode G Training;
                     Forward D (mode s D); SetMode D Training]
             end.
Proof.
  intros H. cbv zeta.
  destruct (train_step_pipeline E n_batch all_dists IndexError s s' H)
    as (dis_in & y & Hb & _ & Hrest).
  cbv zeta in Hb, Hrest.
  destruct (train_step_failure E n_batch all_dists s s' H) as [Hm Ht].
  pose proof (train_step_params E n_batch all_dists IndexError s s' H) as Hparams.
  cbv beta iota in Hparams.
  assert (Hrates : d_fpr (stats s') = d_fpr (stats s) /\
                   d_precision (stats s') = d_precision (stats s) /\
                   d_recall (stats s') = d_recall (stats s)).
  { destruct (fst (loss_functions _ _ _ _ _)) as [loss|].
    - destruct (confusion _ _ _) as [c|]; destruct Hrest as [Hres Hs];
        [destruct Hres as [r Hr]; discriminate Hr|].
      rewrite Hs. repeat split.
    - destruct Hrest as [_ Hs]. rewrite Hs. repeat split. }
  split; [|split; [exact Hparams|]].
  - exists dis_in, y. split; [exact Hb|]. cbv zeta.
    destruct (fst (loss_functions _ _ _ _ _)) as [loss|]; [|exact (proj2 Hrest)].
    destruct (confusion _ _ _) as [c|] eqn:Hconf; destruct Hrest as [Hres Hs];
      [destruct Hres as [r Hr]; discriminate Hr|].
    split; [exact (confusion_error_short _ _ _ Hconf)|].
    rewrite Hs. destruct (fst (totrain_next E (stats s) (world s))); cbn; repeat split.
  - destruct Hrates as (Hf & Hp & Hr). repeat split; assumption.
Qed.

(** [failed_step_leaves_models_alone] on a critic that returns no score,
    with the losses of the test script: a critic step raises in [disLoss]
    and logs nothing. *)
Lemma failed_step_leaves_models_alone_witness :
  let s := init (E := toy_silent (always D)) 0%nat all_training toy_params (1 # 2) Cpu in
  train_step 4 [] s = (IndexError, snd (train_step 4 [] s)) /\
  stats (snd (train_step 4 [] s)) = stats s /\
  params (snd (train_step 4 [] s)) D = toy_params D.
Proof.
  cbv zeta.
  assert (H : train_step 4 []
                (init (E := toy_silent (always D)) 0%nat all_training toy_params (1 # 2) Cpu) =
              (IndexError,
               snd (train_step 4 []
                      (init (E := toy_silent (always D)) 0%nat all_training toy_params
                         (1 # 2) Cpu))))
    by reflexivity.
  split; [exact H|].
  destruct (failed_step_leaves_models_alone (toy_silent (always D)) 4 [] _ _ H)
    as ((dis_in & y & Hb & Hl) & Hp & _).
  split; [|exact (Hp D)].
  cbv zeta in Hb, Hl.
  assert (Hb' : Ok ([[0]; [0]; [1]; [1]], [[0]; [0]; [1]; [1]]) = Ok (dis_in, y)) by exact Hb.
  injection Hb' as <- <-. exact Hl.
Defined.

(** ** Parameters across iterations *)

(** X8: an iteration that completes changes the parameters of the scheduled
    role only.  After a generator step the discriminator's parameters are as
    before and the generator's are what its optimizer returned, unclamped;
    after a discriminator step the generator's parameters are as before. *)
Theorem step_updates_scheduled_role_only (E : Env) (n_batch : nat) (all_dists r : list Q)
    (s s' : Trainer E) :
  train_step n_batch all_dists s = (Ok r, s') ->
  match fst (totrain_next E (stats s) (world s)) with
  | G => params s' D = params s D /\
         exists w, params s' G = fst (opt_step E G (params s G) w)
  | D => params s' G = params s G /\
         exists w, params s' D = clamp_params (fst (opt_step E D (params s D) w))
  end.
Proof.
  intros H. exact (train_step_params E n_batch all_dists (Ok r) s s' H).
Qed.

(** [step_updates_scheduled_role_only] on a generator step of the concrete
    instance: the generator's weight leaves the clamp range. *)
Lemma step_updates_scheduled_role_only_witness :
  let s := toy_init (always G) all_training in
  let out := train_step 4 [] s in
  out = (Ok (value [] (fst out)), snd out) /\
  params (snd out) D = params s D /\
  params (snd out) G = [[(1 # 4) + 1]].
Proof.
  cbv zeta.
  assert (Hr : train_step 4 [] (toy_init (always G) all_training) =
               (Ok (value [] (fst (train_step 4 [] (toy_init (always G) all_training)))),
                snd (train_step 4 [] (toy_init (always G) all_training))))
    by (vm_compute; reflexivity).
  split; [exact Hr|].
  pose proof (step_updates_scheduled_role_only (toy (always G)) 4 [] _ _ _ Hr) as H.
  cbn [fst totrain_next toy always] in H. destruct H as [HD _].
  split; [exact HD|reflexivity].
Defined.

Lemma train_loop_critic (E : Env) (n_batch : nat) :
  forall (n : nat) (acc r : list Q) (s s' : Trainer E),
    train_loop n n_batch acc s = (Ok r, s') ->
    (Forall (Forall in_clamp_range) (params s' D) /\
     (epochs_trained (stats s) D < epochs_trained (stats s') D)%nat) \/
    (params s' D = params s D /\
     epochs_trained (stats s') D = epochs_trained (stats s) D).
Proof.
  induction n as [|n IH]; intros acc r s s' H.
  - injection H as _ <-. right. split; reflexivity.
  - apply train_loop_succ in H. destruct H as (acc1 & s1 & Hstep & Hrest).
    apply IH in Hrest.
    pose proof (train_step_params E n_batch acc (Ok acc1) s s1 Hstep) as Hp.
    pose proof (train_step_ledger E n_batch acc acc1 s s1 Hstep) as Hl.
    cbv beta iota zeta in Hp, Hl. destruct Hl as (_ & He & _ & Heo).
    destruct (fst (totrain_next E (stats s) (world s))); cbn [other] in *.
    + destruct Hp as [HpD _].
      destruct Hrest as [[Hc Hlt]|[Hsame Heq]].
      * left. split; [exact Hc|lia].
      * right. split; [congruence|lia].
    + destruct Hp as [_ [w HpD]].
      destruct Hrest as [[Hc Hlt]|[Hsame Heq]].
      * left. split; [exact Hc|lia].
      * left. split; [|lia]. rewrite Hsame, HpD. apply clamp_params_in_range.
Qed.

(** X9: over a run that completes, the clamp range is an invariant of the
    critic's parameters: if they are in [-0.01, 0.01] when [train] is called
    they are so when it returns; they are so as well whenever the run trained
    the critic at least once; and a run that never trained the critic leaves
    its parameters as they were. *)
Theorem critic_weights_stay_clamped (E : Env) (n_epochs n_batch : nat) (r : list Q)
    (s s' : Trainer E) :
  train n_epochs n_batch s = (Ok r, s') ->
  (Forall (Forall in_clamp_range) (params s D) ->
   Forall (Forall in_clamp_range) (params s' D)) /\
  ((epochs_trained (stats s) D < epochs_trained (stats s') D)%nat ->
   Forall (Forall in_clamp_range) (params s' D)) /\
  (epochs_trained (stats s') D = epochs_trained (stats s) D ->
   params s' D = params s D).
Proof.
  intros H. apply train_loop_critic in H.
  destruct H as [[Hc Hlt]|[Hsame Heq]]; repeat split; intros; try assumption; try lia.
  rewrite Hsame. assumption.
Qed.

(** [critic_weights_stay_clamped] on five iterations of the concrete
    instance, three of which train the critic. *)
Lemma critic_weights_stay_clamped_witness :
  let s := toy_init alternate all_training in
  let out := train 5 4 s in
  out = (Ok (value [] (fst out)), snd out) /\
  (epochs_trained (stats s) D < epochs_trained (stats (snd out)) D)%nat /\
  Forall (Forall in_clamp_range) (params (snd out) D).
Proof.
  cbv zeta.
  assert (Hr : train 5 4 (toy_init alternate all_training) =
               (Ok (value [] (fst (train 5 4 (toy_init alternate all_training)))),
                snd (train 5 4 (toy_init alternate all_training))))
    by (vm_compute; reflexivity).
  assert (Hlt : (epochs_trained (stats (toy_init alternate all_training)) D <
                 epochs_trained (stats (snd (train 5 4 (toy_init alternate all_training)))) D)%nat)
    by (vm_compute; lia).
  split; [exact Hr|]. split; [exact Hlt|].
  exact (proj1 (proj2 (critic_weights_stay_clamped (toy alternate) 5 4 _ _ _ Hr)) Hlt).
Defined.

(** ** Invariants of the statistics over a run *)

(** X10: the two per-role statistics move together.  If, for each role, the
    epochs-trained counter equals the number of recorded losses when [train]
    is called, it does so when [train] returns or raises; in particular after
    any run on a trainer fresh from [__init__]. *)
Theorem counters_match_losses (E : Env) (n_epochs n_batch : nat) :
  (forall (res : Result (list Q)) (s s' : Trainer E),
     train n_epochs n_batch s = (res, s') ->
     (forall role, epochs_trained (stats s) role = length (losses (stats s) role)) ->
     forall role, epochs_trained (stats s') role = length (losses (stats s') role)) /\
  (forall (res : Result (list Q)) w md ps thresh dev (s' : Trainer E),
     train n_epochs n_batch (init w md ps thresh dev) = (res, s') ->
     forall role, epochs_trained (stats s') role = length (losses (stats s') role)).
Proof.
  assert (Hinv : forall (res : Result (list Q)) (s s' : Trainer E),
             train n_epochs n_batch s = (res, s') ->
             (forall role, epochs_trained (stats s) role = length (losses (stats s) role)) ->
             forall role, epochs_trained (stats s') role = length (losses (stats s') role)).
  { intros res s s' H.
    apply (train_loop_invariant E
             (fun t => forall role,
                  epochs_trained (stats t) role = length (losses (stats t) role))
             n_batch) with (n := n_epochs) (acc := []) (res := res); [|exact H].
    clear. intros acc res s s' H Hs role.
    apply train_step_ledger_any in H. cbv zeta in H.
    destruct H as [[_ Hsame]|((loss & Hl) & He & Hlo & Heo)].
    { destruct (Hsame role) as [Hl He]. rewrite Hl, He. apply Hs. }
    pose proof (Hs G) as HG. pose proof (Hs D) as HD.
    destruct (fst (totrain_next E (stats s) (world s))), role; cbn [other] in *;
      try rewrite Hl; try rewrite Hlo; try rewrite length_app; cbn [length]; lia. }
  split; [exact Hinv|].
  intros res w md ps thresh dev s' H. apply (Hinv _ _ _ H). intros role. reflexivity.
Qed.

(** [counters_match_losses] on five iterations of the concrete instance. *)
Lemma counters_match_losses_witness :
  let out := train 5 4 (toy_init alternate all_training) in
  out = (fst out, snd out) /\
  epochs_trained (stats (snd out)) D = length (losses (stats (snd out)) D).
Proof.
  cbv zeta.
  assert (Hr : train 5 4 (toy_init alternate all_training) =
               (fst (train 5 4 (toy_init alternate all_training)),
                snd (train 5 4 (toy_init alternate all_training))))
    by apply surjective_pairing.
  split; [exact Hr|].
  exact (proj2 (counters_match_losses (toy alternate) 5 4) _ _ _ _ _ _ _ Hr D).
Defined.

Lemma ratio_is_rate (a b : nat) : (a <= b)%nat -> (0 < b)%nat -> is_rate (ratio a b).
Proof.
  intros Hab Hb. unfold is_rate, ratio.
  assert (Hpos : 0 < inject_Z (Z.of_nat b)).
  { change 0 with (inject_Z 0). rewrite <- Zlt_Qlt. lia. }
  split.
  - apply Qle_shift_div_l; [exact Hpos|].
    rewrite Qmult_0_l. change 0 with (inject_Z 0). rewrite <- Zle_Qle. lia.
  - apply Qle_shift_div_r; [exact Hpos|].
    rewrite Qmult_1_l. rewrite <- Zle_Qle. lia.
Qed.

Lemma entries_are_rates (c : Counts) :
  Forall is_rate (fpr_entry c) /\
  Forall is_rate (precision_entry c) /\
  Forall is_rate (recall_entry c).
Proof.
  unfold fpr_entry, precision_entry, recall_entry.
  repeat split;
    match goal with
    | |- Forall _ (if Nat.ltb 0 ?d then _ else _) =>
        destruct (Nat.ltb 0 d) eqn:Hd; [|constructor];
        apply Nat.ltb_lt in Hd; constructor; [|constructor];
        apply ratio_is_rate; lia
    end.
Qed.

(** X11: every value an iteration appends to the false-positive-rate,
    precision and recall sequences lies between 0 and 1, so sequences that
    hold only such values when [train] is called hold only such values when
    it returns or raises. *)
Theorem rates_stay_in_unit_interval (E : Env) (n_epochs n_batch : nat)
    (res : Result (list Q)) (s s' : Trainer E) :
  train n_epochs n_batch s = (res, s') ->
  rates_in_unit (stats s) ->
  rates_in_unit (stats s').
Proof.
  intros H.
  apply (train_loop_invariant E (fun t => rates_in_unit (stats t)) n_batch)
    with (n := n_epochs) (acc := []) (res := res); [|exact H].
  clear. intros acc res s s' H (Hf & Hp & Hr).
  destruct (train_step_rates E n_batch acc res s s' H)
    as (dis_in & y & mod_pred & outcome & _ & _ & _ & _ & Hc).
  destruct outcome as [loss|].
  - destruct (confusion (d_thresh s) (flatten y) (flatten mod_pred)) as [c|].
    + destruct Hc as (_ & Hf' & Hp' & Hr').
      destruct (entries_are_rates c) as (Ef & Ep & Er).
      unfold rates_in_unit. rewrite Hf', Hp', Hr'.
      repeat split; apply Forall_app; split; assumption.
    + destruct Hc as (_ & Hf' & Hp' & Hr').
      unfold rates_in_unit. rewrite Hf', Hp', Hr'. repeat split; assumption.
  - destruct Hc as (_ & Hf' & Hp' & Hr').
    unfold rates_in_unit. rewrite Hf', Hp', Hr'. repeat split; assumption.
Qed.

(** [rates_stay_in_unit_interval] on five iterations of the concrete instance. *)
Lemma rates_stay_in_unit_interval_witness :
  let s := toy_init alternate all_training in
  let out := train 5 4 s in
  out = (fst out, snd out) /\
  rates_in_unit (stats s) /\
  rates_in_unit (stats (snd out)).
Proof.
  cbv zeta.
  assert (Hr : train 5 4 (toy_init alternate all_training) =
               (fst (train 5 4 (toy_init alternate all_training)),
                snd (train 5 4 (toy_init alternate all_training))))
    by apply surjective_pairing.
  assert (H0 : rates_in_unit (stats (toy_init alternate all_training)))
    by (repeat split; constructor).
  split; [exact Hr|]. split; [exact H0|].
  exact (rates_stay_in_unit_interval (toy alternate) 5 4 _ _ _ Hr H0).
Defined.

Lemma count_repeat {A : Type} (f : A -> bool) (x : A) (n : nat) :
  count f (repeat x n) = if f x then n else 0%nat.
Proof.
  induction n as [|n IH]; [destruct (f x); reflexivity|].
  cbn [repeat]. rewrite count_cons, IH. destruct (f x); reflexivity.
Qed.

Lemma count_app {A : Type} (f : A -> bool) (l l' : list A) :
  count f (l ++ l') = (count f l + count f l')%nat.
Proof. unfold count. rewrite filter_app, length_app. reflexivity. Qed.

Lemma train_step_rate_lengths (E : Env) (n_batch : nat) (all_dists r : list Q)
    (s s' : Trainer E) :
  train_step n_batch all_dists s = (Ok r, s') ->
  let tt := fst (totrain_next E (stats s) (world s)) in
  length (d_fpr (stats s')) =
    (length (d_fpr (stats s)) +
     match tt with G => 0 | D => if Nat.ltb 0 (ceil_half n_batch) then 1 else 0 end)%nat /\
  length (d_recall (stats s')) =
    (length (d_recall (stats s)) +
     if Nat.ltb 0 (match tt with G => n_batch | D => floor_half n_batch end)
     then 1 else 0)%nat /\
  (length (d_precision (stats s')) <= length (d_precision (stats s)) + 1)%nat.
Proof.
  intros H. cbv zeta.
  destruct (train_step_rates E n_batch all_dists (Ok r) s s' H)
    as (dis_in & y & mod_pred & outcome & _ & Hy & _ & _ & Hc).
  cbv zeta in Hy.
  destruct outcome as [loss|]; [|destruct Hc as [Hc _]; discriminate Hc].
  destruct (confusion (d_thresh s) (flatten y) (flatten mod_pred)) as [c|] eqn:Hconf;
    [|destruct Hc as [Hc _]; discriminate Hc].
  destruct Hc as (_ & Hf & Hp & Hr).
  apply confusion_from_label_counts in Hconf. cbn [fP fN tP tN] in Hconf.
  destruct Hconf as [Hz Ho].
  rewrite Hf, Hp, Hr, !length_app.
  unfold fpr_entry, recall_entry, precision_entry.
  assert (Hyz : count (fun l => Qeq_bool l 0) (flatten y) =
                match fst (totrain_next E (stats s) (world s)) with
                | G => 0%nat
                | D => ceil_half n_batch
                end).
  { rewrite Hy. destruct (fst (totrain_next E (stats s) (world s))).
    - rewrite flatten_repeat, count_repeat. reflexivity.
    - rewrite flatten_app, !flatten_repeat, count_app, !count_repeat.
      change (Qeq_bool 0 0) with true. change (Qeq_bool 1 0) with false.
      cbn [negb]. lia. }
  assert (Hyo : count (fun l => negb (Qeq_bool l 0)) (flatten y) =
                match fst (totrain_next E (stats s) (world s)) with
                | G => n_batch
                | D => floor_half n_batch
                end).
  { rewrite Hy. destruct (fst (totrain_next E (stats s) (world s))).
    - rewrite flatten_repeat, count_repeat. reflexivity.
    - rewrite flatten_app, !flatten_repeat, count_app, !count_repeat.
      change (Qeq_bool 0 0) with true. change (Qeq_bool 1 0) with false.
      cbn [negb]. lia. }
  rewrite Hyz in Hz. rewrite Hyo in Ho. rewrite Hz, Ho.
  destruct (fst (totrain_next E (stats s) (world s))); cbn [Nat.add];
    repeat split;
    repeat match goal with
           | |- context [if ?b then _ else _] => destruct b
           end;
    cbn [length]; lia.
Qed.

Lemma train_loop_rate_lengths (E : Env) (n_batch : nat) :
  (1 <= n_batch)%nat ->
  forall (n : nat) (acc r : list Q) (s s' : Trainer E),
    train_loop n n_batch acc s = (Ok r, s') ->
    (length (d_fpr (stats s')) + epochs_trained (stats s) D =
     length (d_fpr (stats s)) + epochs_trained (stats s') D)%nat /\
    ((2 <= n_batch)%nat ->
     length (d_recall (stats s')) = (length (d_recall (stats s)) + n)%nat) /\
    (n_batch = 1%nat ->
     (length (d_recall (stats s')) + epochs_trained (stats s) G =
      length (d_recall (stats s)) + epochs_trained (stats s') G)%nat) /\
    (length (d_precision (stats s')) <= length (d_precision (stats s)) + n)%nat.
Proof.
  intros Hn.
  assert (Hceil : Nat.ltb 0 (ceil_half n_batch) = true).
  { apply Nat.ltb_lt. pose proof (halves n_batch) as Hh. unfold ceil_half, floor_half in *.
    pose proof (Nat.Div0.div_le_mono n_batch (n_batch + 1) 2 ltac:(lia)). lia. }
  assert (Hnb : Nat.ltb 0 n_batch = true) by (apply Nat.ltb_lt; lia).
  assert (Hfloor2 : (2 <= n_batch)%nat -> Nat.ltb 0 (floor_half n_batch) = true).
  { intros H2. apply Nat.ltb_lt. unfold floor_half.
    pose proof (Nat.Div0.div_le_mono 2 n_batch 2 H2) as Hd.
    change (2 / 2)%nat with 1%nat in Hd. lia. }
  assert (Hfloor1 : n_batch = 1%nat -> Nat.ltb 0 (floor_half n_batch) = false).
  { intros ->. reflexivity. }
  induction n as [|n IH]; intros acc r s s' H.
  - injection H as _ <-. repeat split; intros; lia.
  - apply train_loop_succ in H. destruct H as (acc1 & s1 & Hstep & Hrest).
    apply IH in Hrest. destruct Hrest as (If & Ir2 & Ir1 & Ip).
    pose proof (train_step_rate_lengths E n_batch acc acc1 s s1 Hstep) as Hl.
    pose proof (train_step_ledger E n_batch acc acc1 s s1 Hstep) as He.
    cbv zeta in Hl, He. destruct Hl as (Lf & Lr & Lp).
    destruct He as (_ & He & _ & Heo). rewrite Hceil in Lf.
    destruct (fst (totrain_next E (stats s) (world s))); cbn [other] in *;
      [rewrite Hnb in Lr|];
      (split; [lia|]);
      (split; [intros H2; specialize (Ir2 H2); try rewrite (Hfloor2 H2) in Lr; lia|]);
      (split; [intros H1; specialize (Ir1 H1); try rewrite (Hfloor1 H1) in Lr; lia|lia]).
Qed.

(** X12: with a batch of at least one row, a run that completes appends to
    the false-positive-rate sequence once for every critic step and never on
    a generator step.  To the recall sequence it appends on every step when
    the batch has at least two rows, and on the generator steps only when it
    has one; to the precision sequence at most once a step. *)
Theorem rate_ledgers_follow_schedule (E : Env) (n_epochs n_batch : nat) (r : list Q)
    (s s' : Trainer E) :
  (1 <= n_batch)%nat ->
  train n_epochs n_batch s = (Ok r, s') ->
  (length (d_fpr (stats s')) + epochs_trained (stats s) D =
   length (d_fpr (stats s)) + epochs_trained (stats s') D)%nat /\
  ((2 <= n_batch)%nat ->
   length (d_recall (stats s')) = (length (d_recall (stats s)) + n_epochs)%nat) /\
  (n_batch = 1%nat ->
   (length (d_recall (stats s')) + epochs_trained (stats s) G =
    length (d_recall (stats s)) + epochs_trained (stats s') G)%nat) /\
  (length (d_precision (stats s')) <= length (d_precision (stats s)) + n_epochs)%nat.
Proof.
  intros Hn H. exact (train_loop_rate_lengths E n_batch Hn n_epochs [] r s s' H).
Qed.

(** [rate_ledgers_follow_schedule] on five iterations of the concrete
    instance at batch size 4: three critic steps, five recall entries. *)
Lemma rate_ledgers_follow_schedule_witness :
  let out := train 5 4 (toy_init alternate all_training) in
  (1 <= 4)%nat /\
  out = (Ok (value [] (fst out)), snd out) /\
  length (d_fpr (stats (snd out))) = epochs_trained (stats (snd out)) D /\
  length (d_recall (stats (snd out))) = 5%nat.
Proof.
  cbv zeta.
  assert (Hn : (1 <= 4)%nat) by lia.
  assert (Hr : train 5 4 (toy_init alternate all_training) =
               (Ok (value [] (fst (train 5 4 (toy_init alternate all_training)))),
                snd (train 5 4 (toy_init alternate all_training))))
    by (vm_compute; reflexivity).
  split; [exact Hn|]. split; [exact Hr|].
  destruct (rate_ledgers_follow_schedule (toy alternate) 5 4 _ _ _ Hn Hr)
    as (Hf & Hr2 & _).
  split.
  - cbn [toy_init init stats d_fpr epochs_trained length] in Hf. lia.
  - specialize (Hr2 ltac:(lia)). cbn [toy_init init stats d_recall length] in Hr2. lia.
Defined.

(** ** Edge cases of a run *)

Lemma train_step_empty_batch (E : Env) (all_dists : list Q) (res : Result (list Q))
    (s s' : Trainer E) :
  train_step 0 all_dists s = (res, s') ->
  d_fpr (stats s') = d_fpr (stats s) /\
  d_precision (stats s') = d_precision (stats s) /\
  d_recall (stats s') = d_recall (stats s) /\
  (res = IndexError ->
   let pol := totrain_next E (stats s) (world s) in
   let batch := in_functions (fst pol) 0 (set_world (snd pol) s) in
   exists dis_in : Tensor,
     fst batch = Ok (dis_in, []) /\
     let fw := forward E D (params s D)
                 (match fst pol with G => Inference | D => mode s D end)
                 dis_in (world (snd batch)) in
     fst (loss_functions E (fst pol) (fst fw) [] (snd fw)) = IndexError).
Proof.
  intros H.
  destruct (train_step_pipeline E 0 all_dists res s s' H) as (dis_in & y & Hb & Hy & Hrest).
  cbv zeta in Hb, Hy, Hrest.
  assert (Hnil : y = []).
  { rewrite Hy. destruct (fst (totrain_next E (stats s) (world s))); reflexivity. }
  rewrite Hnil in Hb, Hrest. clear Hy Hnil.
  destruct (fst (loss_functions _ _ _ _ _)) as [loss|] eqn:Hl.
  - cbn in Hrest. destruct Hrest as [[r Hr] Hs]. rewrite Hs. cbn.
    rewrite !app_nil_r. repeat split. intros Hres. rewrite Hres in Hr. discriminate Hr.
  - destruct Hrest as [_ Hs]. rewrite Hs. repeat split.
    intros _. cbv zeta. exists dis_in. split; [exact Hb|exact Hl].
Qed.

(** X13: with a batch size of zero no label is ever compared, so the
    confusion loop never raises, whatever the discriminator returns and
    without any contract of the samplers or the models: a run leaves the
    three rate sequences as they were whether it returns or raises, an
    iteration can only raise in its loss function, and with loss functions
    that return the run completes with one distance per iteration. *)
Theorem empty_batch_records_no_rate (E : Env) (n_epochs : nat) (s : Trainer E) :
  (forall (res : Result (list Q)) (s' : Trainer E),
     train n_epochs 0 s = (res, s') ->
     d_fpr (stats s') = d_fpr (stats s) /\
     d_precision (stats s') = d_precision (stats s) /\
     d_recall (stats s') = d_recall (stats s) /\
     (forall r, res = Ok r -> length r = n_epochs)) /\
  (forall (all_dists : list Q) (t t' : Trainer E),
     train_step 0 all_dists t = (IndexError, t') ->
     let pol := totrain_next E (stats t) (world t) in
     let batch := in_functions (fst pol) 0 (set_world (snd pol) t) in
     exists dis_in : Tensor,
       fst batch = Ok (dis_in, []) /\
       let fw := forward E D (params t D)
                   (match fst pol with G => Inference | D => mode t D end)
                   dis_in (world (snd batch)) in
       fst (loss_functions E (fst pol) (fst fw) [] (snd fw)) = IndexError) /\
  ((forall tt pred y w, exists q, fst (loss_functions E tt pred y w) = Ok q) ->
   exists r s',
     train n_epochs 0 s = (Ok r, s') /\
     length r = n_epochs /\
     d_fpr (stats s') = d_fpr (stats s) /\
     d_precision (stats s') = d_precision (stats s) /\
     d_recall (stats s') = d_recall (stats s)).
Proof.
  assert (Hrates : forall (res : Result (list Q)) (s' : Trainer E),
             train n_epochs 0 s = (res, s') ->
             d_fpr (stats s') = d_fpr (stats s) /\
             d_precision (stats s') = d_precision (stats s) /\
             d_recall (stats s') = d_recall (stats s)).
  { intros res s' H.
    apply (train_loop_invariant E
             (fun t => d_fpr (stats t) = d_fpr (stats s) /\
                       d_precision (stats t) = d_precision (stats s) /\
                       d_recall (stats t) = d_recall (stats s)) 0)
      with (n := n_epochs) (acc := []) (res := res) (s := s); [|exact H|repeat split].
    clear. intros acc res t t' H (Hf & Hp & Hr).
    destruct (train_step_empty_batch E acc res t t' H) as (Hf' & Hp' & Hr' & _).
    repeat split; congruence. }
  split; [|split].
  - intros res s' H. destruct (Hrates res s' H) as (Hf & Hp & Hr).
    repeat split; try assumption.
    intros r Hres. subst res. apply train_loop_length in H. exact H.
  - intros all_dists t t' H.
    exact (proj2 (proj2 (proj2 (train_step_empty_batch E all_dists IndexError t t' H)))
             eq_refl).
  - intros Hloss.
    assert (Hloop : forall n acc (t : Trainer E),
               exists r t', train_loop n 0 acc t = (Ok r, t')).
    { induction n as [|n IH]; intros acc t.
      - exists acc, t. reflexivity.
      - destruct (train_step 0 acc t) as [[acc1|] t1] eqn:Hstep.
        + destruct (IH acc1 t1) as (r & t' & Hrest).
          exists r, t'. cbn [train_loop]. unfold bind at 1. rewrite Hstep. exact Hrest.
        + exfalso.
          destruct (proj2 (proj2 (proj2
                      (train_step_empty_batch E acc IndexError t t1 Hstep))) eq_refl)
            as (dis_in & _ & Hl).
          cbv zeta in Hl.
          match type of Hl with
          | fst (loss_functions _ ?tt ?pred ?y ?w) = _ =>
              destruct (Hloss tt pred y w) as [q Hq]; congruence
          end. }
    destruct (Hloop n_epochs [] s) as (r & s' & H).
    destruct (Hrates (Ok r) s' H) as (Hf & Hp & Hr).
    exists r, s'. split; [exact H|]. split; [|repeat split; assumption].
    apply train_loop_length in H. exact H.
Qed.

(** [empty_batch_records_no_rate] on three iterations of the concrete
    instance, whose loss always returns. *)
Lemma empty_batch_records_no_rate_witness :
  (forall tt pred y w, exists q, fst (loss_functions (toy alternate) tt pred y w) = Ok q) /\
  exists r s',
    train 3 0 (toy_init alternate all_training) = (Ok r, s') /\ length r = 3%nat.
Proof.
  assert (Hloss : forall tt pred y w,
             exists q, fst (loss_functions (toy alternate) tt pred y w) = Ok q).
  { intros tt pred y w. eexists. reflexivity. }
  split; [exact Hloss|].
  destruct (proj2 (proj2 (empty_batch_records_no_rate (toy alternate) 3
                            (toy_init alternate all_training))) Hloss)
    as (r & s' & H & Hl & _).
  exists r, s'. split; [exact H|exact Hl].
Defined.




(** ** More on the input functions *)

Lemma discriminator_input_result (E : Env) (n_batch : nat) (s : Trainer E) :
  exists dis_in : Tensor,
    fst (discriminator_input n_batch s) =
    Ok (dis_in, repeat [0] (ceil_half n_batch) ++ repeat [1] (floor_half n_batch)) /\
    (Contracts E -> length dis_in = n_batch).
Proof.
  unfold_methods. run. eexists. split; [reflexivity|].
  intros C. use_contracts C. rewrite length_app.
  pose proof (halves n_batch). lia.
Qed.

(** X15: for every batch size [discriminator_input] returns as many labels
    as the batch size, zeros first; an even batch size [2k] is split into [k]
    fake and [k] real rows; and with collaborators that return the row counts
    asked for, the input has as many rows as the batch size. *)
Theorem discriminator_input_split (E : Env) (n_batch : nat) (s : Trainer E) :
  exists dis_in y : Tensor,
    fst (discriminator_input n_batch s) = Ok (dis_in, y) /\
    length y = n_batch /\
    (exists zeros ones : nat,
       y = repeat [0] zeros ++ repeat [1] ones /\
       (ones <= zeros <= ones + 1)%nat /\
       (forall k, n_batch = (2 * k)%nat -> zeros = k /\ ones = k)) /\
    (Contracts E -> length dis_in = n_batch).
Proof.
  destruct (discriminator_input_result E n_batch s) as (dis_in & H & Hrows).
  exists dis_in, (repeat [0] (ceil_half n_batch) ++ repeat [1] (floor_half n_batch)).
  pose proof (halves n_batch) as Hh.
  assert (Hle : (floor_half n_batch <= ceil_half n_batch <= floor_half n_batch + 1)%nat).
  { unfold ceil_half, floor_half in *.
    pose proof (Nat.Div0.div_le_mono n_batch (n_batch + 1) 2 ltac:(lia)).
    pose proof (Nat.Div0.mul_div_le n_batch 2).
    pose proof (Nat.Div0.mul_div_le (n_batch + 1) 2).
    pose proof (Nat.mul_succ_div_gt n_batch 2 ltac:(lia)).
    pose proof (Nat.mul_succ_div_gt (n_batch + 1) 2 ltac:(lia)). lia. }
  split; [exact H|]. split; [|split; [|exact Hrows]].
  - rewrite length_app, !repeat_length. exact Hh.
  - exists (ceil_half n_batch), (floor_half n_batch).
    split; [reflexivity|]. split; [exact Hle|]. intros k Hk. lia.
Qed.

(** [discriminator_input_split] at batch size 6. *)
Lemma discriminator_input_split_witness :
  Contracts (toy alternate) /\
  exists dis_in y : Tensor,
    fst (discriminator_input 6 (toy_init alternate all_training)) = Ok (dis_in, y) /\
    length y = 6%nat /\ length dis_in = 6%nat.
Proof.
  split; [apply toy_contracts|].
  destruct (discriminator_input_split (toy alternate) 6 (toy_init alternate all_training))
    as (dis_in & y & H & Hy & _ & Hrows).
  exists dis_in, y. split; [exact H|]. split; [exact Hy|].
  exact (Hrows (toy_contracts alternate)).
Defined.

(** X16: what building a batch does to the trainer.  [discriminator_input]
    leaves the generator in training mode whatever its mode was, having run
    it in inference mode, and does not touch the discriminator's mode;
    [generator_input] runs the generator in the mode it is in and changes no
    mode.  Neither changes a parameter or a statistic. *)
Theorem input_functions_side_effects (E : Env) (n_batch : nat) (s : Trainer E) :
  let sd := snd (discriminator_input n_batch s) in
  let sg := snd (generator_input n_batch s) in
  (mode sd G = Training /\ mode sd D = mode s D /\
   trace sd = trace s ++ [SetMode G Inference; Forward G Inference; SetMode G Training] /\
   (forall r, params sd r = params s r) /\ stats sd = stats s) /\
  ((forall r, mode sg r = mode s r) /\
   trace sg = trace s ++ [Forward G (mode s G)] /\
   (forall r, params sg r = params s r) /\ stats sg = stats s).
Proof.
  cbv zeta. split.
  - unfold_methods. run. unfold ret. fields.
    repeat split; try reflexivity. repeat rewrite <- app_assoc. reflexivity.
  - unfold_methods. run. unfold ret. fields. repeat split; reflexivity.
Qed.

(** ** The critic's loss of the test script on a discriminator batch *)





